(** * Canary house persistence: item codec, tile snapshots, house info, decay buckets

    A shallow embedding of [src/io/iomapserialize.cpp] (the item/container
    codec, the tile and house snapshot passes and the house-info loader) and
    of the [Decay] scheduler, of which the class declaration is shown.

    Mutation is made explicit by state passing: every routine that mutates a
    stream, a tile, a container or the game returns the new value. *)

From Stdlib Require Import ZArith Lia List.
From stdpp Require Import base option list gmap strings.

Local Open Scope Z_scope.

Set Warnings "-register-all".

(** ** Binary property streams *)

(** Modelled from the spec: [PropStream] and [PropWriteStream] are declared
    outside the shown sources.  Section 4.1: the read side is a cursor over a
    byte buffer, [read<T>] advances by [sizeof(T)] and fails, leaving the
    cursor where it was, when fewer bytes remain; the write side appends
    [sizeof(T)] bytes, little-endian.  The read cursor is the list of bytes
    not yet consumed; bytes are integers read modulo 256. *)
Definition PropStream := list Z.
Definition PropWriteStream := list Z.

Definition read_u8 (s : PropStream) : option (Z * PropStream) :=
  match s with
  | b0 :: s' => Some (b0 mod 256, s')
  | _ => None
  end.

Definition read_u16 (s : PropStream) : option (Z * PropStream) :=
  match s with
  | b0 :: b1 :: s' => Some (b0 mod 256 + 256 * (b1 mod 256), s')
  | _ => None
  end.

Definition read_u32 (s : PropStream) : option (Z * PropStream) :=
  match s with
  | b0 :: b1 :: b2 :: b3 :: s' =>
      Some (b0 mod 256 + 256 * (b1 mod 256)
            + 65536 * (b2 mod 256) + 16777216 * (b3 mod 256), s')
  | _ => None
  end.

Definition bytes_u8 (v : Z) : list Z := [v mod 256].
Definition bytes_u16 (v : Z) : list Z := [v mod 256; (v / 256) mod 256].
Definition bytes_u32 (v : Z) : list Z :=
  [v mod 256; (v / 256) mod 256; (v / 65536) mod 256; (v / 16777216) mod 256].

Definition write_u8 (s : PropWriteStream) (v : Z) : PropWriteStream := s ++ bytes_u8 v.
Definition write_u16 (s : PropWriteStream) (v : Z) : PropWriteStream := s ++ bytes_u16 v.
Definition write_u32 (s : PropWriteStream) (v : Z) : PropWriteStream := s ++ bytes_u32 v.

(** ** Items, containers, tiles *)

Record Position := mkPosition { pos_x : Z; pos_y : Z; pos_z : Z }.

(** Modelled from the spec: [ItemType] (items/items_definitions) is outside
    the shown sources.  Section 6 lists the registry entry's capability
    flags: movable, carpet, bed, door, transform-target; these are the ones
    [loadItem] consults. *)
Record ItemType := mkItemType {
  moveable : bool;
  isCarpet : bool;
  isBed : bool;
  isDoor : bool;
  m_transformOnUse : Z
}.

(** The item class hierarchy as [loadItem] and [saveItem] see it: an item is
    a plain item, a [Container] (child list and the decode counter
    [serializationCount]), a [BedItem] (sleeper guid) or a [Door].  [Attrs]
    is the item's generic attribute set. *)
Inductive Item (Attrs : Type) : Type :=
| PlainItem (id : Z) (attrs : Attrs)
| ContainerItem (id : Z) (attrs : Attrs) (serializationCount : Z) (itemlist : list (Item Attrs))
| BedItem (id : Z) (attrs : Attrs) (sleeperGUID : Z)
| DoorItem (id : Z) (attrs : Attrs).

Arguments PlainItem {Attrs} id attrs.
Arguments ContainerItem {Attrs} id attrs serializationCount itemlist.
Arguments BedItem {Attrs} id attrs sleeperGUID.
Arguments DoorItem {Attrs} id attrs.

Record Container (Attrs : Type) := mkContainer {
  c_id : Z;
  c_attrs : Attrs;
  serializationCount : Z;
  itemlist : list (Item Attrs)
}.

Arguments mkContainer {Attrs} c_id c_attrs serializationCount itemlist.
Arguments c_id {Attrs} c.
Arguments c_attrs {Attrs} c.
Arguments serializationCount {Attrs} c.
Arguments itemlist {Attrs} c.

Record Tile (Attrs : Type) := mkTile {
  position : Position;
  itemList : option (list (Item Attrs))
}.

Arguments mkTile {Attrs} position itemList.
Arguments position {Attrs} t.
Arguments itemList {Attrs} t.

(** A [Cylinder] is the recursion root of item placement: a tile or a
    container. *)
Inductive Cylinder (Attrs : Type) : Type :=
| CylTile (t : Tile Attrs)
| CylContainer (c : Container Attrs).

Arguments CylTile {Attrs} t.
Arguments CylContainer {Attrs} c.

(** The calls [loadItem] itself makes on items and on the game, in the order
    they happen: [item->startDecaying()] on an item it added,
    [g_game().transformItem(item, id)] on a matched tile item (recorded with
    the id the item has when the call is made and the id of the record) and
    [g_game().removeBedSleeper(guid)].  What [Item::unserializeAttr] does
    besides changing the item and moving the cursor lies outside the shown
    sources and is not recorded. *)
Inductive GameEvent :=
| EvStartDecaying (id : Z)
| EvTransformItem (itemId : Z) (newId : Z)
| EvRemoveBedSleeper (guid : Z).

Definition Game := list GameEvent.

(** The collaborators of the codec that live outside the shown sources: the
    read-only type registry [Item::items], the factory [Item::CreateItem]
    ([None] is the null pointer), the attribute routines
    [Item::serializeAttr] and [Item::unserializeAttr] (the latter returns its
    boolean result, the mutated item and the advanced stream), the
    predicate [Item::isSavedToHouses] and the attribute tag
    [ATTR_CONTAINER_ITEMS] of the enumeration [AttrTypes_t]. *)
Class ItemApi (Attrs : Type) := {
  items : Z -> ItemType;
  ATTR_CONTAINER_ITEMS : Z;
  CreateItem : Z -> option (Item Attrs);
  serializeAttr : Item Attrs -> list Z;
  unserializeAttr : Item Attrs -> PropStream -> bool * Item Attrs * PropStream;
  isSavedToHouses : Item Attrs -> bool
}.

Section Codec.
Context {Attrs : Type} `{Api : ItemApi Attrs}.

Definition getID (item : Item Attrs) : Z :=
  match item with
  | PlainItem id _ | ContainerItem id _ _ _ | BedItem id _ _ | DoorItem id _ => id
  end.

Definition setID (item : Item Attrs) (newId : Z) : Item Attrs :=
  match item with
  | PlainItem _ a => PlainItem newId a
  | ContainerItem _ a n l => ContainerItem newId a n l
  | BedItem _ a s => BedItem newId a s
  | DoorItem _ a => DoorItem newId a
  end.

(** [item->getContainer()] returns the item itself seen as a container;
    [ofContainer] is the way back (both names denote one object). *)
Definition getContainer (item : Item Attrs) : option (Container Attrs) :=
  match item with
  | ContainerItem id a n l => Some (mkContainer id a n l)
  | _ => None
  end.

Definition ofContainer (c : Container Attrs) : Item Attrs :=
  ContainerItem (c_id c) (c_attrs c) (serializationCount c) (itemlist c).

Definition getDoor (item : Item Attrs) : bool :=
  match item with DoorItem _ _ => true | _ => false end.

Definition getBed (item : Item Attrs) : bool :=
  match item with BedItem _ _ _ => true | _ => false end.

(** [std::dynamic_pointer_cast<BedItem>(item)] followed by [getSleeper()]. *)
Definition getSleeper (item : Item Attrs) : option Z :=
  match item with BedItem _ _ s => Some s | _ => None end.

Definition NEW_BEDS_START_ID : Z := 30000.

(** Modelled from the spec: [Container::internalAddThing] and
    [Tile::internalAddThing] are outside the shown sources.  Section 3: child
    order on disk is the reverse of live order and decode must reinsert
    preserving live order, so a decoded child goes to the front of the child
    list.  A tile takes the item the same way ([saveTile] also writes a
    tile's items last one first) and creates its item list on first use. *)
Definition internalAddThing (parent : Cylinder Attrs) (item : Item Attrs) : Cylinder Attrs :=
  match parent with
  | CylTile t =>
      CylTile (mkTile (position t) (Some (item :: default [] (itemList t))))
  | CylContainer c =>
      CylContainer (mkContainer (c_id c) (c_attrs c) (serializationCount c) (item :: itemlist c))
  end.

(** Modelled from the spec: [Game::transformItem] is outside the shown
    sources.  Section 4.3: a type transformation is applied if the decoded id
    differs from the live id; the item takes the decoded id.  This is what
    the call does to the item; the call itself is recorded in the game. *)
Definition transformItem (item : Item Attrs) (newId : Z) : Item Attrs := setID item newId.

(** ** Encoding: [IOMapSerialize::saveItem] *)

(** The loop runs over [getReversedItems()], last child first: on the live
    list that is a right fold. *)
Fixpoint saveItem (stream : PropWriteStream) (item : Item Attrs) {struct item} : PropWriteStream :=
  let stream := write_u16 stream (getID item) in
  let stream := stream ++ serializeAttr item in
  let stream :=
    match item with
    | ContainerItem _ _ _ l =>
        let stream := write_u8 stream ATTR_CONTAINER_ITEMS in
        let stream := write_u32 stream (Z.of_nat (length l)) in
        fold_right (fun child stream => saveItem stream child) stream l
    | _ => stream
    end in
  write_u8 stream 0.

(** ** Decoding: [IOMapSerialize::loadItem] and [IOMapSerialize::loadContainer] *)

(** The scan of the stationary branch: the four tests of the [if]/[else if]
    chain all select [findItem] and stop. *)
Definition matchesRecord (iType : ItemType) (id : Z) (findItem : Item Attrs) : bool :=
  (getID findItem =? id)
  || (negb (m_transformOnUse iType =? 0) && (getID findItem =? m_transformOnUse iType))
  || (isDoor iType && getDoor findItem)
  || (isBed iType && getBed findItem).

(** First index and element of the tile's item list selected by the scan;
    [None] when the tile has no item list or nothing matches. *)
Definition findItem (tile : Tile Attrs) (iType : ItemType) (id : Z) : option (nat * Item Attrs) :=
  match itemList tile with
  | Some tileItems => list_find (fun i => matchesRecord iType id i = true) tileItems
  | None => None
  end.

(** Writes back the item found at [idx], which the code mutates in place. *)
Definition setTileItem (tile : Tile Attrs) (idx : nat) (item : Item Attrs) : Tile Attrs :=
  mkTile (position tile) (option_map (fun l => <[idx := item]> l) (itemList tile)).

Definition asContainer (parent : Cylinder Attrs) (c : Container Attrs) : Container Attrs :=
  match parent with CylContainer c' => c' | CylTile _ => c end.

Definition asTile (parent : Cylinder Attrs) (t : Tile Attrs) : Tile Attrs :=
  match parent with CylTile t' => t' | CylContainer _ => t end.

(** [tile] of [loadItem]: a tile is its own root ([getParent()] is null and
    [getTile()] is the tile).  A container either has a parent, and then the
    assignment is skipped, or is detached, and then [getTile()] finds no
    root tile: [tile] stays null in both cases. *)
Definition rootTile (parent : Cylinder Attrs) : option (Tile Attrs) :=
  match parent with
  | CylTile t => Some t
  | CylContainer _ => None
  end.

Definition isNull {A : Type} (p : option A) : bool :=
  match p with None => true | Some _ => false end.

Definition decrCount (c : Container Attrs) : Container Attrs :=
  mkContainer (c_id c) (c_attrs c) ((serializationCount c - 1) mod 4294967296) (itemlist c).

(** Both routines return [None] only when [fuel] runs out; otherwise the
    boolean result, the stream cursor, the mutated parent (or container) and
    the game, all of which the caller observes also on failure. *)
Fixpoint loadItem (fuel : nat) (propStream : PropStream) (parent : Cylinder Attrs)
    (isHouseItem : bool) (g : Game) {struct fuel}
    : option (bool * PropStream * Cylinder Attrs * Game) :=
  match fuel with
  | O => None
  | S fuel =>
    match read_u16 propStream with
    | None => Some (false, propStream, parent, g)
    | Some (id, propStream) =>
      let tile := rootTile parent in
      let iType := items id in
      if isHouseItem && isBed iType && (id <? NEW_BEDS_START_ID) then
        Some (false, propStream, parent, g)
      else if moveable iType || isNull tile || isCarpet iType || isBed iType then
        (* create a new item *)
        match CreateItem id with
        | None => Some (true, propStream, parent, g)
        | Some item =>
          let '(okAttr, item, propStream) := unserializeAttr item propStream in
          if okAttr then
            match getContainer item with
            | Some container =>
              match loadContainer fuel propStream container g with
              | None => None
              | Some (okCont, propStream, container, g) =>
                if okCont then
                  Some (true, propStream, internalAddThing parent (ofContainer container),
                        g ++ [EvStartDecaying id])
                else Some (false, propStream, parent, g)
              end
            | None =>
              Some (true, propStream, internalAddThing parent item, g ++ [EvStartDecaying id])
            end
          else Some (false, propStream, parent, g)
        end
      else
        (* stationary items like doors/beds/blackboards/bookcases *)
        match tile with
        | None => Some (true, propStream, parent, g) (* not reached: [!tile] took the branch above *)
        | Some tile =>
          match findItem tile iType id with
          | Some (idx, item) =>
            let '(okAttr, item, propStream) := unserializeAttr item propStream in
            if okAttr then
              match getContainer item with
              | Some container =>
                match loadContainer fuel propStream container g with
                | None => None
                | Some (okCont, propStream, container, g) =>
                  if okCont then
                    Some (true, propStream,
                          CylTile (setTileItem tile idx (transformItem (ofContainer container) id)),
                          g ++ [EvTransformItem (c_id container) id])
                  else
                    Some (false, propStream, CylTile (setTileItem tile idx (ofContainer container)), g)
                end
              | None =>
                Some (true, propStream, CylTile (setTileItem tile idx (transformItem item id)),
                      g ++ [EvTransformItem (getID item) id])
              end
            else Some (true, propStream, CylTile (setTileItem tile idx item), g)
          | None =>
            (* the map changed since the last save, just read the attributes *)
            match CreateItem id with
            | None => Some (true, propStream, parent, g)
            | Some dummy =>
              let '(_, dummy, propStream) := unserializeAttr dummy propStream in
              match getContainer dummy with
              | Some container =>
                match loadContainer fuel propStream container g with
                | None => None
                | Some (okCont, propStream, _, g) => Some (okCont, propStream, parent, g)
                end
              | None =>
                match getSleeper dummy with
                | Some sleeperGUID =>
                  if negb (sleeperGUID =? 0) then
                    Some (true, propStream, parent, g ++ [EvRemoveBedSleeper sleeperGUID])
                  else Some (true, propStream, parent, g)
                | None => Some (true, propStream, parent, g)
                end
              end
            end
          end
        end
    end
  end

with loadContainer (fuel : nat) (propStream : PropStream) (container : Container Attrs)
    (g : Game) {struct fuel}
    : option (bool * PropStream * Container Attrs * Game) :=
  match fuel with
  | O => None
  | S fuel =>
    if 0 <? serializationCount container then
      match loadItem fuel propStream (CylContainer container) false g with
      | None => None
      | Some (okItem, propStream, parent, g) =>
        let container := asContainer parent container in
        if okItem then loadContainer fuel propStream (decrCount container) g
        else Some (false, propStream, container, g)
      end
    else
      match read_u8 propStream with
      | Some (endAttr, propStream') =>
        if endAttr =? 0 then Some (true, propStream', container, g)
        else Some (false, propStream', container, g)
      | None => Some (false, propStream, container, g)
      end
  end.

(** ** Tile snapshots: [IOMapSerialize::saveTile] and [SaveHouseItemsGuard] *)

(** The selection loop of [saveTile]: [items.push_front(item)] on a
    [forward_list] and [++count] on a [uint16_t]. *)
Definition collectSaved (tileItems : list (Item Attrs)) : list (Item Attrs) * Z :=
  fold_left
    (fun '(items, count) item =>
       if isSavedToHouses item then (item :: items, (count + 1) mod 65536)
       else (items, count))
    tileItems ([], 0).

Definition saveTile (stream : PropWriteStream) (tile : Tile Attrs) : PropWriteStream :=
  match itemList tile with
  | None => stream
  | Some tileItems =>
    let '(items, count) := collectSaved tileItems in
    match items with
    | [] => stream
    | _ :: _ =>
      let tilePosition := position tile in
      let stream := write_u16 stream (pos_x tilePosition) in
      let stream := write_u16 stream (pos_y tilePosition) in
      let stream := write_u8 stream (pos_z tilePosition) in
      let stream := write_u32 stream count in
      fold_left saveItem items stream
    end
  end.

End Codec.

(** A house: identity, the fields [loadHouseInfo] restores and the tiles
    [SaveHouseItemsGuard] walks. *)
Record House (Attrs : Type) := mkHouse {
  h_id : Z;
  h_owner : Z;
  h_paidUntil : Z;
  h_payRentWarnings : Z;
  h_accessLists : gmap Z string;
  h_tiles : list (Tile Attrs)
}.

Arguments mkHouse {Attrs} h_id h_owner h_paidUntil h_payRentWarnings h_accessLists h_tiles.
Arguments h_id {Attrs} h.
Arguments h_owner {Attrs} h.
Arguments h_paidUntil {Attrs} h.
Arguments h_payRentWarnings {Attrs} h.
Arguments h_accessLists {Attrs} h.
Arguments h_tiles {Attrs} h.

(** A row of [tile_store]: house id and blob. *)
Definition TileRow : Type := Z * list Z.

(** The storage driver is a black box that may refuse each request: the
    [DELETE], every [addRow] and the final [execute]. *)
Record DbDriver := mkDbDriver {
  db_delete_ok : bool;
  db_addRow_ok : TileRow -> bool;
  db_execute_ok : list TileRow -> bool
}.

Section Snapshot.
Context {Attrs : Type} `{Api : ItemApi Attrs}.

(** The inner loop of [SaveHouseItemsGuard] over one house's tiles: the
    shared [stream] is cleared only after a row was added. *)
Fixpoint saveHouseTiles (db : DbDriver) (houseId : Z) (tiles : list (Tile Attrs))
    (stream : PropWriteStream) (rows : list TileRow) : bool * PropWriteStream * list TileRow :=
  match tiles with
  | [] => (true, stream, rows)
  | tile :: tiles =>
    let stream := saveTile stream tile in
    if (0 <? length stream)%nat then
      let row := (houseId, stream) in
      if db_addRow_ok db row then saveHouseTiles db houseId tiles [] (rows ++ [row])
      else (false, stream, rows)
    else saveHouseTiles db houseId tiles stream rows
  end.

Fixpoint saveHouses (db : DbDriver) (houses : list (House Attrs))
    (stream : PropWriteStream) (rows : list TileRow) : bool * PropWriteStream * list TileRow :=
  match houses with
  | [] => (true, stream, rows)
  | house :: houses =>
    let '(ok, stream, rows) := saveHouseTiles db (h_id house) (h_tiles house) stream rows in
    if ok then saveHouses db houses stream rows else (false, stream, rows)
  end.

(** [SaveHouseItemsGuard]: the boolean result and the rows handed to the
    insert statement.  [houses] is [getHouses()] in iteration order. *)
Definition SaveHouseItemsGuard (db : DbDriver) (houses : list (House Attrs)) : bool * list TileRow :=
  if negb (db_delete_ok db) then (false, [])
  else
    let '(ok, _, rows) := saveHouses db houses [] [] in
    if negb ok then (false, rows)
    else if negb (db_execute_ok db rows) then (false, rows)
    else (true, rows).

End Snapshot.

(** ** Loading: [IOMapSerialize::loadHouseItems] *)

Global Instance Position_eq_dec : EqDecision Position.
Proof. solve_decision. Defined.

Global Instance Position_countable : Countable Position.
Proof.
  refine (inj_countable'
            (fun p => (pos_x p, pos_y p, pos_z p))
            (fun t => mkPosition t.1.1 t.1.2 t.2) _).
  intros []; reflexivity.
Defined.

Section Loading.
Context {Attrs : Type} `{Api : ItemApi Attrs}.

(** [while (item_count--) loadItem(propStream, tile, true);] : the result of
    [loadItem] is not looked at.  [None] only when [loadItem] ran out of
    fuel. *)
Fixpoint loadTileItems (fuel : nat) (item_count : nat) (propStream : PropStream)
    (tile : Tile Attrs) (g : Game) : option (PropStream * Tile Attrs * Game) :=
  match item_count with
  | O => Some (propStream, tile, g)
  | S item_count =>
    match loadItem fuel propStream (CylTile tile) true g with
    | None => None
    | Some (_, propStream, parent, g) =>
      loadTileItems fuel item_count propStream (asTile parent tile) g
    end
  end.

(** One turn of the [do ... while (result->next())] loop on the blob [attr];
    [map] is the world map ([map->getTile(x, y, z)] is the lookup). *)
Definition loadHouseRow (fuel : nat) (attr : list Z) (map : gmap Position (Tile Attrs))
    (g : Game) : option (gmap Position (Tile Attrs) * Game) :=
  let propStream : PropStream := attr in
  match read_u16 propStream with
  | None => Some (map, g)
  | Some (x, propStream) =>
    match read_u16 propStream with
    | None => Some (map, g)
    | Some (y, propStream) =>
      match read_u8 propStream with
      | None => Some (map, g)
      | Some (z, propStream) =>
        match map !! mkPosition x y z with
        | None => Some (map, g)
        | Some tile =>
          match read_u32 propStream with
          | None => Some (map, g)
          | Some (item_count, propStream) =>
            match loadTileItems fuel (Z.to_nat item_count) propStream tile g with
            | None => None
            | Some (_, tile, g) => Some (<[mkPosition x y z := tile]> map, g)
            end
          end
        end
      end
    end
  end.

(** [loadHouseItems] on the rows of [SELECT data FROM tile_store]; an empty
    list is the null result. *)
Fixpoint loadHouseItems (fuel : nat) (rows : list (list Z)) (map : gmap Position (Tile Attrs))
    (g : Game) : option (gmap Position (Tile Attrs) * Game) :=
  match rows with
  | [] => Some (map, g)
  | attr :: rows =>
    match loadHouseRow fuel attr map g with
    | None => None
    | Some (map, g) => loadHouseItems fuel rows map g
    end
  end.

End Loading.

(** ** House info: [IOMapSerialize::loadHouseInfo] *)

(** A row of [SELECT id, owner, new_owner, paid, warnings FROM houses], each
    column already converted by [getNumber<T>]. *)
Record HouseInfoRow := mkHouseInfoRow {
  r_id : Z;
  r_owner : Z;
  r_new_owner : Z;
  r_paid : Z;
  r_warnings : Z
}.

(** A row of [SELECT house_id, listid, list FROM house_lists]. *)
Record HouseListRow := mkHouseListRow {
  l_house_id : Z;
  l_listid : Z;
  l_list : string
}.

(** The calls [loadHouseInfo] makes on the game and on a house, in order. *)
Inductive HouseEvent :=
| EvTransferPlayerHouseItems (houseId : Z) (owner : Z)
| EvSetOwner (houseId : Z) (guid : Z) (updateDatabase : bool).

Section HouseInfo.
Context {Attrs : Type}.

(** Modelled from the spec: [House::setOwner], [House::setPaidUntil],
    [House::setPayRentWarnings] and [House::setAccessList] are outside the
    shown sources.  Sections 3 and 4.5: they assign the house's owner id,
    paid-until timestamp, warning count and the access list of a list id. *)
Definition setOwner (house : House Attrs) (guid : Z) : House Attrs :=
  mkHouse (h_id house) guid (h_paidUntil house) (h_payRentWarnings house)
          (h_accessLists house) (h_tiles house).

Definition setPaidUntil (house : House Attrs) (paid : Z) : House Attrs :=
  mkHouse (h_id house) (h_owner house) paid (h_payRentWarnings house)
          (h_accessLists house) (h_tiles house).

Definition setPayRentWarnings (house : House Attrs) (warnings : Z) : House Attrs :=
  mkHouse (h_id house) (h_owner house) (h_paidUntil house) warnings
          (h_accessLists house) (h_tiles house).

Definition setAccessList (house : House Attrs) (listId : Z) (textlist : string) : House Attrs :=
  mkHouse (h_id house) (h_owner house) (h_paidUntil house) (h_payRentWarnings house)
          (<[listId := textlist]> (h_accessLists house)) (h_tiles house).

(** The owner decision of one row on the house found for it: the events
    issued and the house after them. *)
Definition loadHouseOwner (isTransferOnRestart : bool) (row : HouseInfoRow)
    (house : House Attrs) : House Attrs * list HouseEvent :=
  let houseId := r_id row in
  let owner := r_owner row in
  let newOwner := r_new_owner row in
  if isTransferOnRestart && (0 <=? newOwner) then
    if newOwner =? 0 then
      (setOwner house 0,
       [EvTransferPlayerHouseItems houseId owner; EvSetOwner houseId 0 true])
    else
      (setOwner house newOwner,
       [EvTransferPlayerHouseItems houseId owner; EvSetOwner houseId newOwner true])
  else
    (setOwner house owner, [EvSetOwner houseId owner false]).

(** One turn of the first loop; [houses] is the registry behind
    [getHouse(houseId)]. *)
Definition loadHouseInfoRow (isTransferOnRestart : bool) (row : HouseInfoRow)
    (houses : gmap Z (House Attrs)) (ev : list HouseEvent)
    : gmap Z (House Attrs) * list HouseEvent :=
  match houses !! r_id row with
  | Some house =>
    let '(house, ev') := loadHouseOwner isTransferOnRestart row house in
    let house := setPaidUntil house (r_paid row) in
    let house := setPayRentWarnings house (r_warnings row) in
    (<[r_id row := house]> houses, ev ++ ev')
  | None => (houses, ev)
  end.

Definition loadHouseListRow (row : HouseListRow) (houses : gmap Z (House Attrs))
    : gmap Z (House Attrs) :=
  match houses !! l_house_id row with
  | Some house => <[l_house_id row := setAccessList house (l_listid row) (l_list row)]> houses
  | None => houses
  end.

(** [loadHouseInfo]: [None] for a query is the null result. *)
Definition loadHouseInfo (isTransferOnRestart : bool)
    (houseRows : option (list HouseInfoRow)) (listRows : option (list HouseListRow))
    (houses : gmap Z (House Attrs)) : bool * gmap Z (House Attrs) * list HouseEvent :=
  match houseRows with
  | None => (false, houses, [])
  | Some houseRows =>
    let '(houses, ev) :=
      fold_left (fun '(houses, ev) row => loadHouseInfoRow isTransferOnRestart row houses ev)
                houseRows (houses, []) in
    let houses :=
      match listRows with
      | Some listRows => fold_left (fun houses row => loadHouseListRow row houses) listRows houses
      | None => houses
      end in
    (true, houses, ev)
  end.

(** The house a row leaves in the registry once its owner is decided. *)
Definition restored (house : House Attrs) (owner : Z) (row : HouseInfoRow) : House Attrs :=
  setPayRentWarnings (setPaidUntil (setOwner house owner) (r_paid row)) (r_warnings row).

End HouseInfo.

(** ** Vocabulary of the statements *)

Section Vocabulary.
Context {Attrs : Type} `{Api : ItemApi Attrs}.

(** The attribute routine reads through the cursor, which only moves
    forward. *)
Definition AttrsAdvance : Prop :=
  forall (item : Item Attrs) (s : PropStream) ok item' s',
    unserializeAttr item s = (ok, item', s') -> (length s' <= length s)%nat.

(** The items a cylinder holds. *)
Definition cylinderItems (parent : Cylinder Attrs) : list (Item Attrs) :=
  match parent with
  | CylTile t => default [] (itemList t)
  | CylContainer c => itemlist c
  end.

(** The test that sends [loadItem] to its "create a new item" branch. *)
Definition createsFresh (id : Z) (parent : Cylinder Attrs) : bool :=
  moveable (items id) || isNull (rootTile parent) || isCarpet (items id) || isBed (items id).

(** The legacy guard at the head of [loadItem]. *)
Definition legacyBed (isHouseItem : bool) (id : Z) : bool :=
  isHouseItem && isBed (items id) && (id <? NEW_BEDS_START_ID).

(** The bytes of the children of a container, in the order written. *)
Definition saveChildren (stream : PropWriteStream) (l : list (Item Attrs)) : PropWriteStream :=
  fold_right (fun child stream => saveItem stream child) stream l.

(** The items of an item list that [saveTile] keeps, in list order. *)
Definition qualifying (tileItems : list (Item Attrs)) : list (Item Attrs) :=
  List.filter isSavedToHouses tileItems.

(** The persistence-eligible items of a tile, in tile order. *)
Definition savedItems (tile : Tile Attrs) : list (Item Attrs) :=
  match itemList tile with
  | Some tileItems => qualifying tileItems
  | None => []
  end.

(** The blob of a tile with saved items. *)
Definition tileBlob (tile : Tile Attrs) : list Z :=
  bytes_u16 (pos_x (position tile)) ++ bytes_u16 (pos_y (position tile))
    ++ bytes_u8 (pos_z (position tile))
    ++ bytes_u32 (Z.of_nat (length (savedItems tile)) mod 65536)
    ++ concat (map (saveItem []) (rev (savedItems tile))).

(** The rows one house contributes. *)
Definition houseRows (house : House Attrs) : list TileRow :=
  flat_map (fun tile => match savedItems tile with
                        | [] => []
                        | _ :: _ => [(h_id house, tileBlob tile)]
                        end) (h_tiles house).

(** An item as a completed decode leaves it: the decode counter of every
    container is back at zero; ids, attributes, sleepers, children and their
    order are untouched. *)
Fixpoint decoded (item : Item Attrs) : Item Attrs :=
  match item with
  | ContainerItem id a _ l => ContainerItem id a 0 (map decoded l)
  | _ => item
  end.

(** What the codec expects of the attribute routines on one item: the
    factory knows the item's type, and reading back what [serializeAttr]
    wrote into the factory's blank item restores the item, up to the
    terminator for a plain item, bed or door, and up to the container marker
    and its count (stored in [serializationCount]) for a container. *)
Definition attrRoundTrip (item : Item Attrs) : Prop :=
  exists blank, CreateItem (getID item) = Some blank /\
    match item with
    | ContainerItem id a _ _ =>
        forall k rest, 0 <= k < 4294967296 ->
          unserializeAttr blank
            (serializeAttr item ++ bytes_u8 ATTR_CONTAINER_ITEMS ++ bytes_u32 k ++ rest)
          = (true, ContainerItem id a k [], rest)
    | _ =>
        forall rest, unserializeAttr blank (serializeAttr item ++ [0] ++ rest) = (true, item, rest)
    end.

(** Items the format can hold: a 16-bit id, a child count that fits 32
    bits, attributes that survive the attribute routines; the same for every
    descendant. *)
Inductive storable : Item Attrs -> Prop :=
| storable_leaf item :
    getContainer item = None ->
    0 <= getID item < 65536 ->
    attrRoundTrip item ->
    storable item
| storable_container id a n l :
    0 <= id < 65536 ->
    Z.of_nat (length l) < 4294967296 ->
    attrRoundTrip (ContainerItem id a n l) ->
    Forall storable l ->
    storable (ContainerItem id a n l).

End Vocabulary.

(** ** Decay buckets: [Decay::startDecay] and [Decay::stopDecay] *)

Module Decay.

(** Items are referred to by handle. *)
Definition ItemRef := nat.

(** Modelled from the spec: of [Decay] only the declaration is shown
    ([decayMap], from an int64 tick to a vector of items, and the two entry
    points); the bodies are outside the shown sources.  Section 4.6: an item
    is inactive or scheduled; [startDecay] computes the expiry tick from the
    item's decay duration and inserts the item into the bucket of that tick,
    creating the bucket if absent, after removing an already scheduled item
    from its old bucket; [stopDecay] removes the item from its bucket if
    present and does nothing for an item that was never scheduled.
    [scheduledAt] is the per-item state: the tick of the bucket a scheduled
    item was put in. *)
Record Scheduler := mkScheduler {
  decayMap : gmap Z (list ItemRef);
  scheduledAt : gmap ItemRef Z
}.

Definition empty : Scheduler := mkScheduler ∅ ∅.

(** Removes the first occurrence of [item] from a bucket. *)
Fixpoint removeItem (item : ItemRef) (bucket : list ItemRef) : list ItemRef :=
  match bucket with
  | [] => []
  | x :: bucket' => if decide (x = item) then bucket' else x :: removeItem item bucket'
  end.

Definition stopDecay (d : Scheduler) (item : ItemRef) : Scheduler :=
  match scheduledAt d !! item with
  | None => d
  | Some tick =>
    let buckets :=
      match decayMap d !! tick with
      | Some bucket => <[tick := removeItem item bucket]> (decayMap d)
      | None => decayMap d
      end in
    mkScheduler buckets (delete item (scheduledAt d))
  end.

Definition startDecay (duration : ItemRef -> Z) (now : Z) (d : Scheduler) (item : ItemRef)
    : Scheduler :=
  let d := stopDecay d item in
  let tick := now + duration item in
  mkScheduler (<[tick := default [] (decayMap d !! tick) ++ [item]]> (decayMap d))
              (<[item := tick]> (scheduledAt d)).

Inductive Op :=
| Start (now : Z) (item : ItemRef)
| Stop (item : ItemRef).

Definition step (duration : ItemRef -> Z) (d : Scheduler) (op : Op) : Scheduler :=
  match op with
  | Start now item => startDecay duration now d item
  | Stop item => stopDecay d item
  end.

(** The scheduler after a sequence of calls, starting with no bucket. *)
Definition run (duration : ItemRef -> Z) (ops : list Op) : Scheduler :=
  fold_left (step duration) ops empty.

(** How often [item] occurs in the bucket of [tick] (0 without a bucket). *)
Definition occurrences (d : Scheduler) (tick : Z) (item : ItemRef) : nat :=
  match decayMap d !! tick with
  | Some bucket => length (filter (fun x => x = item) bucket)
  | None => O
  end.

Definition inBucket (d : Scheduler) (tick : Z) (item : ItemRef) : bool :=
  bool_decide (0 < occurrences d tick item)%nat.

(** The buckets and the per-item state agree, and no bucket holds an item
    twice. *)
Definition consistent (d : Scheduler) : Prop :=
  (forall tick bucket, decayMap d !! tick = Some bucket -> NoDup bucket)
  /\ (forall tick bucket item,
        decayMap d !! tick = Some bucket -> item ∈ bucket -> scheduledAt d !! item = Some tick)
  /\ (forall item tick,
        scheduledAt d !! item = Some tick ->
        exists bucket, decayMap d !! tick = Some bucket /\ item ∈ bucket).

End Decay.

(** ** A concrete registry and attribute codec *)

(** A small instance of the collaborators, on which the routines run: six
    item types and an attribute set made of an optional 16-bit action id
    (tag 4), the sleeper of a bed (tag 20, 32 bits, written when not zero)
    and the container marker (tag 23). *)
Module Demo.

Definition Attrs : Type := option Z.

(** 100: sack (movable container); 200, 201: movable plain items; 1754: a
    bed with a legacy id; 31000: a bed; 5000: a door; 6000: a stationary
    plain item; 7000: a chest (stationary container); anything else is not
    registered. *)
Definition registry (id : Z) : ItemType :=
  if (id =? 100) || (id =? 200) || (id =? 201) then mkItemType true false false false 0
  else if (id =? 1754) || (id =? 31000) then mkItemType false false true false 0
  else if id =? 5000 then mkItemType false false false true 0
  else mkItemType false false false false 0.

Definition create (id : Z) : option (Item Attrs) :=
  if (id =? 100) || (id =? 7000) then Some (ContainerItem id None 0 [])
  else if (id =? 200) || (id =? 201) || (id =? 6000) then Some (PlainItem id None)
  else if (id =? 1754) || (id =? 31000) then Some (BedItem id None 0)
  else if id =? 5000 then Some (DoorItem id None)
  else None.

Definition getAttrs (item : Item Attrs) : Attrs :=
  match item with
  | PlainItem _ a | ContainerItem _ a _ _ | BedItem _ a _ | DoorItem _ a => a
  end.

Definition setAttrs (item : Item Attrs) (a : Attrs) : Item Attrs :=
  match item with
  | PlainItem id _ => PlainItem id a
  | ContainerItem id _ n l => ContainerItem id a n l
  | BedItem id _ s => BedItem id a s
  | DoorItem id _ => DoorItem id a
  end.

Definition writeAttrs (item : Item Attrs) : list Z :=
  match getAttrs item with
  | Some actionId => 4 :: bytes_u16 actionId
  | None => []
  end ++
  match item with
  | BedItem _ _ sleeper => if sleeper =? 0 then [] else 20 :: bytes_u32 sleeper
  | _ => []
  end.

(** The attribute loop: read a tag; stop on an exhausted stream or on the
    terminator 0; a container stops after the marker and its count; an
    unknown tag or a short value is an error. *)
Fixpoint readAttrs (item : Item Attrs) (s : PropStream) {struct s}
    : bool * Item Attrs * PropStream :=
  match s with
  | [] => (true, item, [])
  | tag :: s1 =>
    if tag mod 256 =? 0 then (true, item, s1)
    else if tag mod 256 =? 4 then
      match s1 with
      | b0 :: b1 :: s2 => readAttrs (setAttrs item (Some (b0 mod 256 + 256 * (b1 mod 256)))) s2
      | _ => (false, item, s1)
      end
    else if tag mod 256 =? 20 then
      match item, s1 with
      | BedItem id a _, b0 :: b1 :: b2 :: b3 :: s2 =>
        readAttrs
          (BedItem id a (b0 mod 256 + 256 * (b1 mod 256)
                         + 65536 * (b2 mod 256) + 16777216 * (b3 mod 256))) s2
      | _, _ => (false, item, s1)
      end
    else if tag mod 256 =? 23 then
      match item, read_u32 s1 with
      | ContainerItem id a _ l, Some (n, s2) => (true, ContainerItem id a n l, s2)
      | _, _ => (false, item, s1)
      end
    else (false, item, s1)
  end.

Definition savedToHouses (item : Item Attrs) : bool :=
  moveable (registry (getID item))
  || getDoor item
  || match item with ContainerItem _ _ _ (_ :: _) => true | _ => false end
  || getBed item.

#[global] Instance api : ItemApi Attrs := {|
  items := registry;
  ATTR_CONTAINER_ITEMS := 23;
  CreateItem := create;
  serializeAttr := writeAttrs;
  unserializeAttr := readAttrs;
  isSavedToHouses := savedToHouses
|}.

(** The sack of the end-to-end scenario: type 100 holding 200 and 201. *)
Definition sack : Item Attrs :=
  ContainerItem 100 (Some 7) 0 [PlainItem 200 None; PlainItem 201 (Some 1234)].

Definition door : Item Attrs := DoorItem 5000 (Some 3).

Definition origin : Position := mkPosition 100 200 7.

(** A tile with an empty item list, and one without an item list. *)
Definition emptyTile : Tile Attrs := mkTile origin (Some []).
Definition bareTile : Tile Attrs := mkTile origin None.

(** Further records the routines are run on: a storage driver that accepts
    everything, a house, and a row whose first item is a bed with a legacy
    id. *)
Definition demoDb : DbDriver := mkDbDriver true (fun _ => true) (fun _ => true).

Definition house5 : House Attrs :=
  mkHouse 5 77 0 0 ∅ [mkTile origin (Some [sack; door]); emptyTile].

Definition legacyRow : list Z := [100; 0; 200; 0; 7; 2; 0; 0; 0; 218; 6; 200; 0; 0].

End Demo.

(** ** Vocabulary of the further statements *)

Section MoreVocabulary.
Context {Attrs : Type} `{Api : ItemApi Attrs}.

(** The relation between a tile before and after items were loaded onto it:
    same position, no fewer items. *)
Definition grownFrom (tile tile' : Tile Attrs) : Prop :=
  position tile' = position tile
  /\ (length (cylinderItems (CylTile tile)) <= length (cylinderItems (CylTile tile')))%nat.

(** The items a house load may recreate: the format holds them, their type
    is movable, a carpet or a bed, and the legacy guard lets them pass. *)
Definition reloadable (item : Item Attrs) : Prop :=
  storable item
  /\ moveable (items (getID item)) || isCarpet (items (getID item)) || isBed (items (getID item))
     = true
  /\ legacyBed true (getID item) = false.

End MoreVocabulary.

(** The call [item->startDecaying()], as opposed to a call on the game. *)
Definition startsDecaying (ev : GameEvent) : bool :=
  match ev with
  | EvStartDecaying _ => true
  | EvTransformItem _ _ | EvRemoveBedSleeper _ => false
  end.

(** The calls one row of the first query of [loadHouseInfo] gives rise to,
    for a registry in which [known] tells the ids that have a house. *)
Definition rowEvents (isTransferOnRestart : bool) (known : Z -> bool) (row : HouseInfoRow)
    : list HouseEvent :=
  if known (r_id row) then
    if isTransferOnRestart && (0 <=? r_new_owner row) then
      [EvTransferPlayerHouseItems (r_id row) (r_owner row);
       EvSetOwner (r_id row) (if r_new_owner row =? 0 then 0 else r_new_owner row) true]
    else [EvSetOwner (r_id row) (r_owner row) false]
  else [].

(** ** House info: [IOMapSerialize::SaveHouseInfoGuard] *)

(** A door of a house as the save pass sees it: its id and what
    [Door::getAccessList] hands back ([None] when it returns false). *)
Record Door := mkDoor {
  getDoorId : Z;
  doorAccessList : option string
}.

(** The accessors of [House] that [SaveHouseInfoGuard] calls and that live
    outside the shown sources, with the two fixed list ids.
    [getAccessList house listId] is [None] when the call returns false. *)
Class HouseApi (Attrs : Type) := {
  getName : House Attrs -> string;
  getTownId : House Attrs -> Z;
  getRent : House Attrs -> Z;
  getSize : House Attrs -> Z;
  getBedCount : House Attrs -> Z;
  getAccessList : House Attrs -> Z -> option string;
  getDoors : House Attrs -> list Door;
  GUEST_LIST : Z;
  SUBOWNER_LIST : Z
}.

(** The statements [SaveHouseInfoGuard] builds as text, by what they say. *)
Inductive HouseQuery :=
| QDeleteHouseLists
| QSelectHouse (id : Z)
| QUpdateHouse (id owner paid warnings : Z) (name : string) (town_id rent size beds : Z)
| QInsertHouse (id owner paid warnings : Z) (name : string) (town_id rent size beds : Z).

(** A row of [house_lists]: house id, list id, list text. *)
Definition ListRow : Type := Z * Z * string.

(** The storage driver behind [SaveHouseInfoGuard]: whether a statement
    succeeds and whether a query has a result may depend on the statements
    issued before it.  [DBInsert::addRow] is given the text stream that holds
    one row and, being outside the shown sources, is taken to leave it empty
    for the next row, as the loop relies on; [addRow] and [execute] answer
    for a row and for the rows handed over. *)
Record InfoDb := mkInfoDb {
  info_executeQuery : list HouseQuery -> HouseQuery -> bool;
  info_storeQuery : list HouseQuery -> HouseQuery -> bool;
  info_addRow : ListRow -> bool;
  info_execute : list ListRow -> bool
}.

Section SaveHouseInfo.
Context {Attrs : Type} `{HApi : HouseApi Attrs}.

(** One turn of the first loop: the [SELECT], then the [UPDATE] or the
    [INSERT], whose result is not looked at. *)
Definition saveHouseRecord (db : InfoDb) (issued : list HouseQuery) (house : House Attrs)
    : list HouseQuery :=
  let select := QSelectHouse (h_id house) in
  let result := info_storeQuery db issued select in
  let issued := issued ++ [select] in
  let query :=
    if result then
      QUpdateHouse (h_id house) (h_owner house) (h_paidUntil house) (h_payRentWarnings house)
                   (getName house) (getTownId house) (getRent house) (getSize house)
                   (getBedCount house)
    else
      QInsertHouse (h_id house) (h_owner house) (h_paidUntil house) (h_payRentWarnings house)
                   (getName house) (getTownId house) (getRent house) (getSize house)
                   (getBedCount house) in
  issued ++ [query].

(** [getAccessList(...) && !listText.empty()] followed by [addRow]: no row
    for a failed call or an empty text. *)
Definition addListRow (db : InfoDb) (houseId listId : Z) (access : option string)
    (rows : list ListRow) : bool * list ListRow :=
  match access with
  | Some listText =>
    match listText with
    | EmptyString => (true, rows)
    | String _ _ =>
      if info_addRow db (houseId, listId, listText)
      then (true, rows ++ [(houseId, listId, listText)])
      else (false, rows)
    end
  | None => (true, rows)
  end.

Fixpoint saveDoorLists (db : InfoDb) (houseId : Z) (doors : list Door) (rows : list ListRow)
    : bool * list ListRow :=
  match doors with
  | [] => (true, rows)
  | door :: doors =>
    let '(ok, rows) := addListRow db houseId (getDoorId door) (doorAccessList door) rows in
    if ok then saveDoorLists db houseId doors rows else (false, rows)
  end.

(** One turn of the second loop. *)
Definition saveHouseLists (db : InfoDb) (house : House Attrs) (rows : list ListRow)
    : bool * list ListRow :=
  let '(ok, rows) :=
    addListRow db (h_id house) GUEST_LIST (getAccessList house GUEST_LIST) rows in
  if negb ok then (false, rows)
  else
    let '(ok, rows) :=
      addListRow db (h_id house) SUBOWNER_LIST (getAccessList house SUBOWNER_LIST) rows in
    if negb ok then (false, rows)
    else saveDoorLists db (h_id house) (getDoors house) rows.

Fixpoint saveAllLists (db : InfoDb) (houses : list (House Attrs)) (rows : list ListRow)
    : bool * list ListRow :=
  match houses with
  | [] => (true, rows)
  | house :: houses =>
    let '(ok, rows) := saveHouseLists db house rows in
    if ok then saveAllLists db houses rows else (false, rows)
  end.

(** [SaveHouseInfoGuard]: the boolean result, the statements issued in order
    and the rows handed to the insert statement. *)
Definition SaveHouseInfoGuard (db : InfoDb) (houses : list (House Attrs))
    : bool * list HouseQuery * list ListRow :=
  if negb (info_executeQuery db [] QDeleteHouseLists) then (false, [QDeleteHouseLists], [])
  else
    let issued := fold_left (saveHouseRecord db) houses [QDeleteHouseLists] in
    let '(ok, rows) := saveAllLists db houses [] in
    if negb ok then (false, issued, rows)
    else if negb (info_execute db rows) then (false, issued, rows)
    else (true, issued, rows).

(** The access-list rows of one house: guest list, subowner list, then the
    doors, each only with a non-empty text. *)
Definition listRowOf (houseId listId : Z) (access : option string) : list ListRow :=
  match access with
  | Some (String c text) => [(houseId, listId, String c text)]
  | _ => []
  end.

Definition houseListRows (house : House Attrs) : list ListRow :=
  listRowOf (h_id house) GUEST_LIST (getAccessList house GUEST_LIST)
  ++ listRowOf (h_id house) SUBOWNER_LIST (getAccessList house SUBOWNER_LIST)
  ++ flat_map (fun door => listRowOf (h_id house) (getDoorId door) (doorAccessList door))
              (getDoors house).

(** The statement written for a house whose [SELECT] had the result
    [found]. *)
Definition houseWrite (found : bool) (house : House Attrs) : HouseQuery :=
  (if found then QUpdateHouse else QInsertHouse)
    (h_id house) (h_owner house) (h_paidUntil house) (h_payRentWarnings house)
    (getName house) (getTownId house) (getRent house) (getSize house) (getBedCount house).

(** The statements of the first loop for houses whose [SELECT]s had the
    results [founds], in order. *)
Definition houseTrace (founds : list bool) (houses : list (House Attrs)) : list HouseQuery :=
  flat_map (fun '(found, house) => [QSelectHouse (h_id house); houseWrite found house])
           (zip founds houses).

End SaveHouseInfo.

(** Handing rows to an insert statement, one [addRow] each, up to the first
    one refused. *)
Fixpoint submitAll {R : Type} (accept : R -> bool) (pending : list R) (rows : list R)
    : bool * list R :=
  match pending with
  | [] => (true, rows)
  | row :: pending =>
    if accept row then submitAll accept pending (rows ++ [row]) else (false, rows)
  end.

(** ** Lua error texts: [LuaFunctionsLoader::getErrorDesc] *)

(** The error codes the switch names; [LUA_ERROR_UNLISTED] stands for every
    other value of the enumeration, which is declared outside the shown
    sources. *)
Inductive ErrorCode_t :=
| LUA_ERROR_PLAYER_NOT_FOUND
| LUA_ERROR_CREATURE_NOT_FOUND
| LUA_ERROR_NPC_NOT_FOUND
| LUA_ERROR_NPC_TYPE_NOT_FOUND
| LUA_ERROR_MONSTER_NOT_FOUND
| LUA_ERROR_MONSTER_TYPE_NOT_FOUND
| LUA_ERROR_ITEM_NOT_FOUND
| LUA_ERROR_THING_NOT_FOUND
| LUA_ERROR_TILE_NOT_FOUND
| LUA_ERROR_HOUSE_NOT_FOUND
| LUA_ERROR_COMBAT_NOT_FOUND
| LUA_ERROR_CONDITION_NOT_FOUND
| LUA_ERROR_AREA_NOT_FOUND
| LUA_ERROR_CONTAINER_NOT_FOUND
| LUA_ERROR_VARIANT_NOT_FOUND
| LUA_ERROR_VARIANT_UNKNOWN
| LUA_ERROR_SPELL_NOT_FOUND
| LUA_ERROR_ACTION_NOT_FOUND
| LUA_ERROR_TALK_ACTION_NOT_FOUND
| LUA_ERROR_ZONE_NOT_FOUND
| LUA_ERROR_UNLISTED.

Definition getErrorDesc (code : ErrorCode_t) : string :=
  match code with
  | LUA_ERROR_PLAYER_NOT_FOUND => "Player not found"%string
  | LUA_ERROR_CREATURE_NOT_FOUND => "Creature not found"%string
  | LUA_ERROR_NPC_NOT_FOUND => "Npc not found"%string
  | LUA_ERROR_NPC_TYPE_NOT_FOUND => "Npc type not found"%string
  | LUA_ERROR_MONSTER_NOT_FOUND => "Monster not found"%string
  | LUA_ERROR_MONSTER_TYPE_NOT_FOUND => "Monster type not found"%string
  | LUA_ERROR_ITEM_NOT_FOUND => "Item not found"%string
  | LUA_ERROR_THING_NOT_FOUND => "Thing not found"%string
  | LUA_ERROR_TILE_NOT_FOUND => "Tile not found"%string
  | LUA_ERROR_HOUSE_NOT_FOUND => "House not found"%string
  | LUA_ERROR_COMBAT_NOT_FOUND => "Combat not found"%string
  | LUA_ERROR_CONDITION_NOT_FOUND => "Condition not found"%string
  | LUA_ERROR_AREA_NOT_FOUND => "Area not found"%string
  | LUA_ERROR_CONTAINER_NOT_FOUND => "Container not found"%string
  | LUA_ERROR_VARIANT_NOT_FOUND => "Variant not found"%string
  | LUA_ERROR_VARIANT_UNKNOWN => "Unknown variant type"%string
  | LUA_ERROR_SPELL_NOT_FOUND => "Spell not found"%string
  | LUA_ERROR_ACTION_NOT_FOUND => "Action not found"%string
  | LUA_ERROR_TALK_ACTION_NOT_FOUND => "TalkAction not found"%string
  | LUA_ERROR_ZONE_NOT_FOUND => "Zone not found"%string
  | LUA_ERROR_UNLISTED => "Bad error code"%string
  end.

(** Further records for the routines: containers about to be filled from a
    stream, tiles to reconcile against and to snapshot. *)
Module Scenes.
Import Demo.

Definition pouch : Container Attrs := mkContainer 100 None 2 [PlainItem 6000 None].

Definition pouchLoaded : Container Attrs :=
  mkContainer 100 None 0 [PlainItem 201 None; PlainItem 200 None; PlainItem 6000 None].

Definition bedBox : Container Attrs := mkContainer 100 None 1 [].

Definition shelf : list (Item Attrs) :=
  [PlainItem 200 None; PlainItem 6000 (Some 5); PlainItem 6000 (Some 6)].

Definition shelfTile : Tile Attrs := mkTile origin (Some shelf).

Definition satchelTile : Tile Attrs := mkTile origin (Some [sack; PlainItem 201 (Some 9)]).

Definition stoneTile : Tile Attrs := mkTile origin (Some [PlainItem 6000 None]).

Definition emptyWorld : gmap Position (Tile Attrs) := {[origin := emptyTile]}.

Definition stoneWorld : gmap Position (Tile Attrs) := {[origin := stoneTile]}.

Definition loadedWorld : gmap Position (Tile Attrs) :=
  {[origin := mkTile origin (Some [PlainItem 200 None])]}.

Definition house6 : House Attrs := mkHouse 6 0 0 0 ∅ [].



Definition row5 : HouseInfoRow := mkHouseInfoRow 5 77 0 1000 2.

Definition row6 : HouseInfoRow := mkHouseInfoRow 6 12 (-1) 2000 0.

(** What the save pass of the house info reads from the two houses: house 5
    has a guest list and two doors, one with an empty list. *)
#[global] Instance houseApi : HouseApi Attrs := {|
  getName := fun house => if h_id house =? 5 then "Villa"%string else "Hut"%string;
  getTownId := fun _ => 1;
  getRent := fun house => 100 * h_id house;
  getSize := fun _ => 20;
  getBedCount := fun _ => 2;
  getAccessList := fun house listId =>
    if (h_id house =? 5) && (listId =? 256) then Some "Bob"%string else None;
  getDoors := fun house =>
    if h_id house =? 5 then [mkDoor 1 (Some "Alice"%string); mkDoor 2 (Some EmptyString)] else [];
  GUEST_LIST := 256;
  SUBOWNER_LIST := 257
|}.

(** A driver that accepts everything and knows house 5 only. *)
Definition infoDb : InfoDb :=
  mkInfoDb (fun _ _ => true)
           (fun _ query => match query with QSelectHouse id => id =? 5 | _ => false end)
           (fun _ => true) (fun _ => true).

Definition twoHouses : gmap Z (House Attrs) := {[5 := house5; 6 := house6]}.

End Scenes.

(** * Properties *)

(** ** Streams *)

Lemma read_u8_bytes (v : Z) (s : PropStream) :
  0 <= v < 256 -> read_u8 (bytes_u8 v ++ s) = Some (v, s).
Proof.
  intros Hv. unfold read_u8, bytes_u8; simpl.
  rewrite Z.mod_mod by lia. rewrite Z.mod_small by lia. reflexivity.
Qed.

Lemma read_u16_bytes (v : Z) (s : PropStream) :
  0 <= v < 65536 -> read_u16 (bytes_u16 v ++ s) = Some (v, s).
Proof.
  intros Hv. unfold read_u16, bytes_u16; simpl.
  rewrite !Z.mod_mod by lia.
  rewrite (Z.mod_small (v / 256)) by (split; [apply Z.div_pos | apply Z.div_lt_upper_bound]; lia).
  rewrite (Z.add_comm (v mod 256)), <- Z.div_mod by lia. reflexivity.
Qed.

Lemma read_u32_bytes (v : Z) (s : PropStream) :
  0 <= v < 4294967296 -> read_u32 (bytes_u32 v ++ s) = Some (v, s).
Proof.
  intros Hv. unfold read_u32, bytes_u32; simpl.
  rewrite !Z.mod_mod by lia.
  do 2 f_equal.
  pose proof (Z.div_mod v 256 ltac:(lia)).
  pose proof (Z.div_mod (v / 256) 256 ltac:(lia)).
  pose proof (Z.div_mod (v / 65536) 256 ltac:(lia)).
  pose proof (Z.mod_pos_bound v 256 ltac:(lia)).
  pose proof (Z.mod_pos_bound (v / 256) 256 ltac:(lia)).
  pose proof (Z.mod_pos_bound (v / 65536) 256 ltac:(lia)).
  replace (v / 65536) with (v / 256 / 256) in * by (rewrite Z.div_div by lia; reflexivity).
  replace (v / 16777216) with (v / 256 / 256 / 256) by (rewrite !Z.div_div by lia; reflexivity).
  assert (0 <= v / 256 / 256 / 256 < 256).
  { split; [repeat apply Z.div_pos; lia |].
    repeat apply Z.div_lt_upper_bound; lia. }
  rewrite (Z.mod_small (v / 256 / 256 / 256)) by lia.
  lia.
Qed.

Lemma read_u16_length (s : PropStream) (v : Z) (s' : PropStream) :
  read_u16 s = Some (v, s') -> (length s = 2 + length s')%nat /\ 0 <= v < 65536.
Proof.
  destruct s as [|b0 [|b1 s0]]; simpl; try discriminate.
  intros [= <- <-]. split; [reflexivity|].
  pose proof (Z.mod_pos_bound b0 256 ltac:(lia)).
  pose proof (Z.mod_pos_bound b1 256 ltac:(lia)). lia.
Qed.

Lemma read_u8_length (s : PropStream) (v : Z) (s' : PropStream) :
  read_u8 s = Some (v, s') -> (length s = 1 + length s')%nat.
Proof. destruct s; simpl; [discriminate|]. intros [= <- <-]. reflexivity. Qed.

(** ** The decoder always returns *)

Section LoadTotal.
Context {Attrs : Type} `{Api : ItemApi Attrs}.

Hypothesis advance : AttrsAdvance.

Lemma load_total (fuel : nat) :
  (forall s parent isHouseItem g,
     (length s + 1 <= fuel)%nat ->
     exists ok s' parent' g',
       loadItem fuel s parent isHouseItem g = Some (ok, s', parent', g')
       /\ (length s' <= length s)%nat
       /\ (ok = true -> (length s' + 2 <= length s)%nat))
  /\ (forall s container g,
     (length s + 2 <= fuel)%nat ->
     exists ok s' container' g',
       loadContainer fuel s container g = Some (ok, s', container', g')
       /\ (length s' <= length s)%nat).
Proof.
  induction fuel as [|fuel [IHitem IHcont]].
  { split; intros; lia. }
  assert (Hcont : forall (s1 s2 : PropStream) (c : Container Attrs) g,
             (length s1 + 2 <= fuel)%nat -> (length s2 <= length s1)%nat ->
             exists ok s' c' g', loadContainer fuel s2 c g = Some (ok, s', c', g')
                                 /\ (length s' <= length s1)%nat).
  { intros s1 s2 c g H1 H2.
    destruct (IHcont s2 c g ltac:(lia)) as (ok & s' & c' & g' & E & L).
    exists ok, s', c', g'. split; [exact E | lia]. }
  split.
  - intros s parent isHouseItem g Hfuel. simpl.
    destruct (read_u16 s) as [[id s1]|] eqn:Hid.
    2: { eexists _, _, _, _. split; [reflexivity|]. split; [lia | discriminate]. }
    apply read_u16_length in Hid as [Hlen _].
    destruct (isHouseItem && isBed (items id) && (id <? NEW_BEDS_START_ID)).
    { eexists _, _, _, _. split; [reflexivity|]. split; [lia | discriminate]. }
    destruct (moveable (items id) || isNull (rootTile parent) || isCarpet (items id)
              || isBed (items id)).
    + destruct (CreateItem id) as [item|].
      2: { eexists _, _, _, _. split; [reflexivity|]. split; lia. }
      destruct (unserializeAttr item s1) as [[okAttr item'] s2] eqn:Hattr.
      apply advance in Hattr.
      destruct okAttr.
      2: { eexists _, _, _, _. split; [reflexivity|]. split; [lia | discriminate]. }
      destruct (getContainer item') as [container|].
      2: { eexists _, _, _, _. split; [reflexivity|]. split; lia. }
      destruct (Hcont s1 s2 container g ltac:(lia) ltac:(lia))
        as (okc & s3 & c' & g' & -> & L).
      destruct okc; eexists _, _, _, _; (split; [reflexivity|]); split; (lia || discriminate).
    + destruct (rootTile parent) as [tile|].
      2: { eexists _, _, _, _. split; [reflexivity|]. split; lia. }
      destruct (findItem tile (items id) id) as [[idx item]|].
      * destruct (unserializeAttr item s1) as [[okAttr item'] s2] eqn:Hattr.
        apply advance in Hattr.
        destruct okAttr.
        2: { eexists _, _, _, _. split; [reflexivity|]. split; lia. }
        destruct (getContainer item') as [container|].
        2: { eexists _, _, _, _. split; [reflexivity|]. split; lia. }
        destruct (Hcont s1 s2 container g ltac:(lia) ltac:(lia))
          as (okc & s3 & c' & g' & -> & L).
        destruct okc; eexists _, _, _, _; (split; [reflexivity|]); split; (lia || discriminate).
      * destruct (CreateItem id) as [dummy|].
        2: { eexists _, _, _, _. split; [reflexivity|]. split; lia. }
        destruct (unserializeAttr dummy s1) as [[okAttr dummy'] s2] eqn:Hattr.
        apply advance in Hattr.
        destruct (getContainer dummy') as [container|].
        -- destruct (Hcont s1 s2 container g ltac:(lia) ltac:(lia))
             as (okc & s3 & c' & g' & -> & L).
           eexists _, _, _, _. split; [reflexivity|]. split; lia.
        -- destruct (getSleeper dummy') as [sl|]; [destruct (negb (sl =? 0))|];
             eexists _, _, _, _; (split; [reflexivity|]); split; lia.
  - intros s container g Hfuel. simpl.
    destruct (0 <? serializationCount container).
    + destruct (IHitem s (CylContainer container) false g ltac:(lia))
        as (ok & s1 & p' & g' & -> & L1 & L2).
      destruct ok.
      * specialize (L2 eq_refl).
        destruct (IHcont s1 (decrCount (asContainer p' container)) g' ltac:(lia))
          as (okc & s2 & c' & g'' & -> & L).
        eexists _, _, _, _. split; [reflexivity | lia].
      * eexists _, _, _, _. split; [reflexivity | lia].
    + destruct (read_u8 s) as [[endAttr s1]|] eqn:Hend.
      * apply read_u8_length in Hend.
        destruct (endAttr =? 0); eexists _, _, _, _; (split; [reflexivity | lia]).
      * eexists _, _, _, _. split; [reflexivity | lia].
Qed.

End LoadTotal.

(** ** The branches of [loadItem] *)

Section LoadItemBranches.
Context {Attrs : Type} `{Api : ItemApi Attrs}.

Lemma loadItem_unfold_fresh fuel propStream id s1 parent isHouseItem g :
  read_u16 propStream = Some (id, s1) ->
  legacyBed isHouseItem id = false ->
  createsFresh id parent = true ->
  loadItem (S fuel) propStream parent isHouseItem g =
    match CreateItem id with
    | None => Some (true, s1, parent, g)
    | Some item =>
      let '(okAttr, item, s2) := unserializeAttr item s1 in
      if okAttr then
        match getContainer item with
        | Some container =>
          match loadContainer fuel s2 container g with
          | None => None
          | Some (okCont, s3, container, g) =>
            if okCont then
              Some (true, s3, internalAddThing parent (ofContainer container),
                    g ++ [EvStartDecaying id])
            else Some (false, s3, parent, g)
          end
        | None => Some (true, s2, internalAddThing parent item, g ++ [EvStartDecaying id])
        end
      else Some (false, s2, parent, g)
    end.
Proof.
  unfold legacyBed, createsFresh. intros Hid Hleg Hfresh.
  simpl. rewrite Hid, Hleg, Hfresh. reflexivity.
Qed.

Lemma loadItem_unfold_stationary fuel propStream id s1 tile isHouseItem g :
  read_u16 propStream = Some (id, s1) ->
  legacyBed isHouseItem id = false ->
  createsFresh id (CylTile tile) = false ->
  loadItem (S fuel) propStream (CylTile tile) isHouseItem g =
    match findItem tile (items id) id with
    | Some (idx, item) =>
      let '(okAttr, item, s2) := unserializeAttr item s1 in
      if okAttr then
        match getContainer item with
        | Some container =>
          match loadContainer fuel s2 container g with
          | None => None
          | Some (okCont, s3, container, g) =>
            if okCont then
              Some (true, s3,
                    CylTile (setTileItem tile idx (transformItem (ofContainer container) id)),
                    g ++ [EvTransformItem (c_id container) id])
            else Some (false, s3, CylTile (setTileItem tile idx (ofContainer container)), g)
          end
        | None =>
          Some (true, s2, CylTile (setTileItem tile idx (transformItem item id)),
                g ++ [EvTransformItem (getID item) id])
        end
      else Some (true, s2, CylTile (setTileItem tile idx item), g)
    | None =>
      match CreateItem id with
      | None => Some (true, s1, CylTile tile, g)
      | Some dummy =>
        let '(_, dummy, s2) := unserializeAttr dummy s1 in
        match getContainer dummy with
        | Some container =>
          match loadContainer fuel s2 container g with
          | None => None
          | Some (okCont, s3, _, g) => Some (okCont, s3, CylTile tile, g)
          end
        | None =>
          match getSleeper dummy with
          | Some sleeperGUID =>
            if negb (sleeperGUID =? 0) then
              Some (true, s2, CylTile tile, g ++ [EvRemoveBedSleeper sleeperGUID])
            else Some (true, s2, CylTile tile, g)
          | None => Some (true, s2, CylTile tile, g)
          end
        end
      end
    end.
Proof.
  unfold legacyBed, createsFresh. intros Hid Hleg Hfresh.
  simpl in *. rewrite Hid, Hleg, Hfresh. reflexivity.
Qed.

Lemma length_cylinderItems_setTileItem (tile : Tile Attrs) idx item :
  length (cylinderItems (CylTile (setTileItem tile idx item)))
  = length (cylinderItems (CylTile tile)).
Proof.
  unfold setTileItem; simpl. destruct (itemList tile); simpl; [|reflexivity].
  apply length_insert.
Qed.

Lemma cylinderItems_internalAddThing (parent : Cylinder Attrs) item :
  cylinderItems (internalAddThing parent item) = item :: cylinderItems parent.
Proof. destruct parent; reflexivity. Qed.

End LoadItemBranches.

Section LoadItemClaims.
Context {Attrs : Type} `{Api : ItemApi Attrs}.

(** C5: in a house-item context a record whose type is a bed kind and whose
    id is below the legacy threshold 30000 makes [loadItem] return failure
    right after the id, whatever bytes follow it; nothing else changes. *)
Theorem loadItem_rejects_legacy_bed (fuel : nat) (propStream : PropStream) (id : Z)
    (payload : PropStream) (parent : Cylinder Attrs) (g : Game) :
  read_u16 propStream = Some (id, payload) ->
  isBed (items id) = true ->
  id < 30000 ->
  loadItem (S fuel) propStream parent true g = Some (false, payload, parent, g).
Proof.
  intros Hid Hbed Hlow. simpl. rewrite Hid, Hbed.
  replace (id <? NEW_BEDS_START_ID) with true
    by (symmetry; apply Z.ltb_lt; exact Hlow).
  reflexivity.
Qed.

End LoadItemClaims.

(** ** The row loop of [loadHouseItems] *)

Section LoadHouseItemsClaims.
Context {Attrs : Type} `{Api : ItemApi Attrs}.

Lemma loadTileItems_total (fuel : nat) :
  AttrsAdvance ->
  forall (item_count : nat) (s : PropStream) (tile : Tile Attrs) (g : Game),
    (length s + 1 <= fuel)%nat ->
    exists s' tile' g', loadTileItems fuel item_count s tile g = Some (s', tile', g').
Proof.
  intros Hadv. induction item_count as [|n IH]; intros s tile g Hfuel; simpl.
  - eauto.
  - destruct (proj1 (load_total Hadv fuel) s (CylTile tile) true g Hfuel)
      as (ok & s' & p' & g' & -> & Hlen & _).
    apply IH. lia.
Qed.

Lemma loadHouseRow_total (fuel : nat) (attr : list Z) (map : gmap Position (Tile Attrs))
    (g : Game) :
  AttrsAdvance ->
  (length attr + 1 <= fuel)%nat ->
  exists map' g', loadHouseRow fuel attr map g = Some (map', g').
Proof.
  intros Hadv Hfuel. unfold loadHouseRow.
  destruct (read_u16 attr) as [[x s1]|] eqn:Hx; [|eauto].
  apply read_u16_length in Hx as [Hx _].
  destruct (read_u16 s1) as [[y s2]|] eqn:Hy; [|eauto].
  apply read_u16_length in Hy as [Hy _].
  destruct (read_u8 s2) as [[z s3]|] eqn:Hz; [|eauto].
  apply read_u8_length in Hz.
  destruct (map !! mkPosition x y z) as [tile|]; [|eauto].
  destruct (read_u32 s3) as [[item_count s4]|] eqn:Hc; [|eauto].
  assert (length s4 <= length s3)%nat.
  { destruct s3 as [|? [|? [|? [|? ?]]]]; simpl in Hc; try discriminate.
    injection Hc as _ <-. simpl. lia. }
  destruct (loadTileItems_total fuel Hadv (Z.to_nat item_count) s4 tile g ltac:(lia))
    as (s' & tile' & g' & ->).
  eauto.
Qed.

Lemma loadHouseItems_app (fuel : nat) (rows1 rows2 : list (list Z))
    (map : gmap Position (Tile Attrs)) (g : Game) :
  loadHouseItems fuel (rows1 ++ rows2) map g =
    match loadHouseItems fuel rows1 map g with
    | Some (map1, g1) => loadHouseItems fuel rows2 map1 g1
    | None => None
    end.
Proof.
  revert map g. induction rows1 as [|row rows1 IH]; intros map g; simpl; [reflexivity|].
  destruct (loadHouseRow fuel row map g) as [[map1 g1]|]; [apply IH | reflexivity].
Qed.

Lemma loadHouseItems_total (fuel : nat) (rows : list (list Z)) :
  AttrsAdvance ->
  Forall (fun attr : list Z => (length attr + 1 <= fuel)%nat) rows ->
  forall (map : gmap Position (Tile Attrs)) (g : Game),
    exists map' g', loadHouseItems fuel rows map g = Some (map', g').
Proof.
  intros Hadv Hrows. induction Hrows as [|row rows Hrow _ IH]; intros map g; simpl.
  - eauto.
  - destruct (loadHouseRow_total fuel row map g Hadv Hrow) as (map1 & g1 & ->). apply IH.
Qed.

(** C4 (amended): no decode failure stops the load.  Whatever happens while
    a stored row is decoded, [loadHouseItems] goes through every row before
    it, that row and every row after it, each from the state its predecessor
    left.  Inside a row the result of [loadItem] is not looked at: after a
    failed item the loop goes on with the remaining count on the same
    stream. *)
Theorem loadHouseItems_never_aborts (fuel : nat) (before : list (list Z)) (row : list Z)
    (after : list (list Z)) (map : gmap Position (Tile Attrs)) (g : Game) :
  AttrsAdvance ->
  Forall (fun attr : list Z => (length attr + 1 <= fuel)%nat) (before ++ row :: after) ->
  (exists map1 g1 map2 g2 map3 g3,
     loadHouseItems fuel before map g = Some (map1, g1)
     /\ loadHouseRow fuel row map1 g1 = Some (map2, g2)
     /\ loadHouseItems fuel after map2 g2 = Some (map3, g3)
     /\ loadHouseItems fuel (before ++ row :: after) map g = Some (map3, g3))
  /\ (forall (n : nat) (s : PropStream) (tile : Tile Attrs) (g0 : Game) s' parent' g',
        loadItem fuel s (CylTile tile) true g0 = Some (false, s', parent', g') ->
        loadTileItems fuel (S n) s tile g0 = loadTileItems fuel n s' (asTile parent' tile) g').
Proof.
  intros Hadv Hrows. split.
  - apply Forall_app in Hrows as [Hbefore Hrest].
    apply Forall_cons in Hrest as [Hrow Hafter].
    destruct (loadHouseItems_total fuel before Hadv Hbefore map g) as (map1 & g1 & E1).
    destruct (loadHouseRow_total fuel row map1 g1 Hadv Hrow) as (map2 & g2 & E2).
    destruct (loadHouseItems_total fuel after Hadv Hafter map2 g2) as (map3 & g3 & E3).
    exists map1, g1, map2, g2, map3, g3. repeat split; try assumption.
    rewrite loadHouseItems_app, E1. simpl. rewrite E2. exact E3.
  - intros n s tile g0 s' parent' g' E. simpl. rewrite E. reflexivity.
Qed.

End LoadHouseItemsClaims.

(** ** The encoder *)

Section Encoder.
Context {Attrs : Type} `{Api : ItemApi Attrs}.

Lemma Item_nested_ind (P : Item Attrs -> Prop) :
  (forall id a, P (PlainItem id a)) ->
  (forall id a n l, Forall P l -> P (ContainerItem id a n l)) ->
  (forall id a s, P (BedItem id a s)) ->
  (forall id a, P (DoorItem id a)) ->
  forall item, P item.
Proof.
  intros Hplain Hcont Hbed Hdoor. fix IH 1. intros [id a | id a n l | id a s | id a].
  - apply Hplain.
  - apply Hcont. induction l as [|x l IHl]; constructor; [apply IH | exact IHl].
  - apply Hbed.
  - apply Hdoor.
Qed.

Lemma saveItem_eq (stream : PropWriteStream) (item : Item Attrs) :
  saveItem stream item =
    match item with
    | ContainerItem _ _ _ l =>
        saveChildren
          (stream ++ bytes_u16 (getID item) ++ serializeAttr item
             ++ bytes_u8 ATTR_CONTAINER_ITEMS ++ bytes_u32 (Z.of_nat (length l))) l
    | _ => stream ++ bytes_u16 (getID item) ++ serializeAttr item
    end ++ [0].
Proof.
  destruct item; cbn [saveItem]; unfold write_u8, write_u16, write_u32, saveChildren;
    rewrite <- ?app_assoc; reflexivity.
Qed.

Lemma saveChildren_app (l : list (Item Attrs)) :
  Forall (fun child => forall stream, saveItem stream child = stream ++ saveItem [] child) l ->
  forall stream, saveChildren stream l = stream ++ saveChildren [] l.
Proof.
  induction 1 as [|child l Hchild _ IH]; intros stream; simpl.
  - symmetry. apply app_nil_r.
  - rewrite Hchild, IH, (Hchild (saveChildren [] l)). symmetry; apply app_assoc.
Qed.

Lemma saveItem_app (item : Item Attrs) :
  forall stream, saveItem stream item = stream ++ saveItem [] item.
Proof.
  induction item as [id a | id a n l IH | id a s | id a] using Item_nested_ind;
    intros stream; rewrite (saveItem_eq stream), (saveItem_eq []);
    rewrite ?app_nil_l, <- ?app_assoc; try reflexivity.
  rewrite (saveChildren_app l IH), (saveChildren_app l IH (bytes_u16 _ ++ _)).
  rewrite <- !app_assoc. reflexivity.
Qed.

Lemma saveChildren_rev (l : list (Item Attrs)) :
  saveChildren [] l = concat (map (saveItem []) (rev l)).
Proof.
  induction l as [|child l IH]; simpl; [reflexivity|].
  rewrite saveItem_app, IH, map_app, concat_app. simpl. rewrite app_nil_r. reflexivity.
Qed.

Lemma saveItem_container (id : Z) (a : Attrs) (n : Z) (l : list (Item Attrs)) :
  saveItem [] (ContainerItem id a n l) =
    bytes_u16 id ++ serializeAttr (ContainerItem id a n l)
      ++ bytes_u8 ATTR_CONTAINER_ITEMS ++ bytes_u32 (Z.of_nat (length l))
      ++ concat (map (saveItem []) (rev l)) ++ [0].
Proof.
  rewrite saveItem_eq, app_nil_l.
  rewrite saveChildren_app by (apply Forall_forall; intros; apply saveItem_app).
  rewrite saveChildren_rev, <- !app_assoc. reflexivity.
Qed.

Lemma saveItem_leaf (item : Item Attrs) :
  getContainer item = None ->
  saveItem [] item = bytes_u16 (getID item) ++ serializeAttr item ++ [0].
Proof.
  intros Hleaf. rewrite saveItem_eq.
  destruct item; try discriminate; rewrite app_nil_l, <- app_assoc; reflexivity.
Qed.

Lemma fold_left_saveItem (l : list (Item Attrs)) (stream : PropWriteStream) :
  fold_left saveItem l stream = stream ++ concat (map (saveItem []) l).
Proof.
  revert stream. induction l as [|item l IH]; intros stream; simpl.
  - symmetry. apply app_nil_r.
  - rewrite IH, saveItem_app, <- app_assoc. reflexivity.
Qed.

Lemma collectSaved_spec (tileItems : list (Item Attrs)) :
  collectSaved tileItems
  = (rev (qualifying tileItems), Z.of_nat (length (qualifying tileItems)) mod 65536).
Proof.
  unfold collectSaved.
  assert (H : forall l acc n,
             fold_left
               (fun '(items, count) item =>
                  if isSavedToHouses item then (item :: items, (count + 1) mod 65536)
                  else (items, count)) l (acc, n mod 65536)
             = (rev (qualifying l) ++ acc, (n + Z.of_nat (length (qualifying l))) mod 65536)).
  { induction l as [|item l IH]; intros acc n; simpl.
    - rewrite Z.add_0_r. reflexivity.
    - destruct (isSavedToHouses item); simpl.
      + rewrite Zplus_mod_idemp_l, IH, <- app_assoc. simpl.
        do 2 f_equal. lia.
      + apply IH. }
  specialize (H tileItems [] 0). rewrite Z.mod_0_l in H by lia.
  rewrite H, app_nil_r. reflexivity.
Qed.

(** Layout of what [saveTile] appends for a tile with an item list. *)
Lemma saveTile_layout (stream : PropWriteStream) (tile : Tile Attrs)
    (tileItems : list (Item Attrs)) :
  itemList tile = Some tileItems ->
  saveTile stream tile =
    match qualifying tileItems with
    | [] => stream
    | _ :: _ =>
      stream ++ bytes_u16 (pos_x (position tile)) ++ bytes_u16 (pos_y (position tile))
        ++ bytes_u8 (pos_z (position tile))
        ++ bytes_u32 (Z.of_nat (length (qualifying tileItems)) mod 65536)
        ++ concat (map (saveItem []) (rev (qualifying tileItems)))
    end.
Proof.
  intros Hlist. unfold saveTile. rewrite Hlist, collectSaved_spec.
  destruct (qualifying tileItems) as [|q qs] eqn:Hq; [reflexivity|].
  destruct (rev (q :: qs)) as [|r rs] eqn:Hrev.
  { apply (f_equal (@length _)) in Hrev. rewrite length_rev in Hrev. discriminate. }
  rewrite fold_left_saveItem. unfold write_u8, write_u16, write_u32.
  rewrite <- !app_assoc. reflexivity.
Qed.

End Encoder.

(** ** Tile snapshots *)

Section SnapshotClaims.
Context {Attrs : Type} `{Api : ItemApi Attrs}.

Lemma saveTile_none (stream : PropWriteStream) (tile : Tile Attrs) :
  savedItems tile = [] -> saveTile stream tile = stream.
Proof.
  unfold savedItems. destruct (itemList tile) as [tileItems|] eqn:Hlist.
  - intros Hq. rewrite (saveTile_layout stream tile tileItems Hlist), Hq. reflexivity.
  - intros _. unfold saveTile. rewrite Hlist. reflexivity.
Qed.

Lemma saveTile_some (stream : PropWriteStream) (tile : Tile Attrs) :
  savedItems tile <> [] -> saveTile stream tile = stream ++ tileBlob tile.
Proof.
  unfold tileBlob, savedItems. destruct (itemList tile) as [tileItems|] eqn:Hlist.
  - intros Hq. rewrite (saveTile_layout stream tile tileItems Hlist).
    destruct (qualifying tileItems); [contradiction | reflexivity].
  - intros Hq. contradiction.
Qed.

Lemma saveHouseTiles_rows (db : DbDriver) (house : House Attrs) (tiles : list (Tile Attrs)) :
  forall rows stream' rows',
    saveHouseTiles db (h_id house) tiles [] rows = (true, stream', rows') ->
    stream' = []
    /\ rows' = rows ++ flat_map (fun tile => match savedItems tile with
                                             | [] => []
                                             | _ :: _ => [(h_id house, tileBlob tile)]
                                             end) tiles.
Proof.
  induction tiles as [|tile tiles IH]; intros rows stream' rows'; simpl.
  - intros [= <- <-]. rewrite app_nil_r. auto.
  - destruct (savedItems tile) as [|q qs] eqn:Hq.
    + rewrite (saveTile_none [] tile Hq). simpl. apply IH.
    + rewrite (saveTile_some [] tile) by (rewrite Hq; discriminate).
      simpl. unfold tileBlob at 1. simpl.
      destruct (db_addRow_ok db _); [|discriminate].
      intros E. apply IH in E as [-> ->]. rewrite <- app_assoc. auto.
Qed.

Lemma saveHouses_rows (db : DbDriver) (houses : list (House Attrs)) :
  forall rows stream' rows',
    saveHouses db houses [] rows = (true, stream', rows') ->
    stream' = [] /\ rows' = rows ++ flat_map houseRows houses.
Proof.
  induction houses as [|house houses IH]; intros rows stream' rows'; simpl.
  - intros [= <- <-]. rewrite app_nil_r. auto.
  - destruct (saveHouseTiles db (h_id house) (h_tiles house) [] rows)
      as [[ok s1] rows1] eqn:E1.
    destruct ok; [|discriminate].
    apply saveHouseTiles_rows in E1 as [-> ->].
    intros E. apply IH in E as [-> ->]. rewrite <- app_assoc. auto.
Qed.

(** X17: what the save pass produces.  [saveTile] writes nothing for a tile
    without a saved item, so the pass adds no row for it; for a tile with
    saved items the blob is the position (x:u16, y:u16, z:u8), a uint32
    holding the number of saved items modulo 2^16, and every saved item
    encoded, last one first; a successful pass hands over exactly these rows,
    one per tile with saved items. *)
Theorem saveTile_row_layout (db : DbDriver) (houses : list (House Attrs)) :
  (forall tile stream, savedItems tile = [] -> saveTile stream tile = stream)
  /\ (forall tile, savedItems tile <> [] ->
        saveTile [] tile =
          bytes_u16 (pos_x (position tile)) ++ bytes_u16 (pos_y (position tile))
            ++ bytes_u8 (pos_z (position tile))
            ++ bytes_u32 (Z.of_nat (length (savedItems tile)) mod 65536)
            ++ concat (map (saveItem []) (rev (savedItems tile))))
  /\ (forall rows, SaveHouseItemsGuard db houses = (true, rows) ->
        rows = flat_map houseRows houses).
Proof.
  split; [|split].
  - intros tile stream. apply saveTile_none.
  - intros tile Hq. rewrite (saveTile_some [] tile Hq). reflexivity.
  - intros rows. unfold SaveHouseItemsGuard.
    destruct (db_delete_ok db); simpl; [|discriminate].
    destruct (saveHouses db houses [] []) as [[ok s'] rows'] eqn:E.
    destruct ok; simpl; [|discriminate].
    destruct (db_execute_ok db rows'); simpl; [|discriminate].
    intros [= <-]. apply saveHouses_rows in E as [_ ->]. reflexivity.
Qed.

Lemma saveTile_count_field (tile : Tile Attrs) :
  savedItems tile <> [] ->
  read_u32 (drop 5 (saveTile [] tile))
  = Some (Z.of_nat (length (savedItems tile)) mod 65536,
          concat (map (saveItem []) (rev (savedItems tile)))).
Proof.
  intros Hq. rewrite (saveTile_some [] tile Hq).
  unfold tileBlob. cbn [app bytes_u16 bytes_u8 drop].
  apply read_u32_bytes.
  pose proof (Z.mod_pos_bound (Z.of_nat (length (savedItems tile))) 65536 ltac:(lia)). lia.
Qed.


(** C10: the count [saveTile] stores is kept in a 16-bit counter and written
    as a uint32: the field read back from the blob is the number of saved
    items modulo 2^16, it is followed by the encodings of all the saved
    items, and it differs from their number as soon as there are more than
    65535 of them. *)
Theorem saveTile_count_wraps (tile : Tile Attrs) :
  savedItems tile <> [] ->
  read_u32 (drop 5 (saveTile [] tile))
  = Some (Z.of_nat (length (savedItems tile)) mod 65536,
          concat (map (saveItem []) (rev (savedItems tile))))
  /\ length (map (saveItem []) (rev (savedItems tile))) = length (savedItems tile)
  /\ (65535 < Z.of_nat (length (savedItems tile)) ->
      Z.of_nat (length (savedItems tile)) mod 65536 <> Z.of_nat (length (savedItems tile))).
Proof.
  intros Hq. split; [|split].
  - apply saveTile_count_field, Hq.
  - rewrite length_map, length_rev. reflexivity.
  - intros Hbig Heq.
    pose proof (Z.mod_pos_bound (Z.of_nat (length (savedItems tile))) 65536 ltac:(lia)). lia.
Qed.

End SnapshotClaims.

(** ** Round trip of [saveItem] and [loadItem] *)

Section RoundTrip.
Context {Attrs : Type} `{Api : ItemApi Attrs}.

Lemma saveItem_length (item : Item Attrs) : (2 <= length (saveItem [] item))%nat.
Proof.
  destruct item as [id a | id a n l | id a s | id a].
  2: { rewrite saveItem_container, !length_app. simpl. lia. }
  all: rewrite saveItem_leaf by reflexivity; rewrite !length_app; simpl; lia.
Qed.

Lemma decrCount_ok (c : Container Attrs) (n : nat) :
  serializationCount c = Z.of_nat (S n) ->
  Z.of_nat (S n) < 4294967296 ->
  decrCount c = mkContainer (c_id c) (c_attrs c) (Z.of_nat n) (itemlist c).
Proof.
  intros Hc Hn. unfold decrCount. rewrite Hc. f_equal.
  rewrite Z.mod_small by lia. lia.
Qed.

Lemma roundtrip_fuel (fuel : nat) :
  (forall item (rest : PropStream) parent isHouseItem g,
     storable item ->
     (length (saveItem [] item ++ rest) + 1 <= fuel)%nat ->
     legacyBed isHouseItem (getID item) = false ->
     createsFresh (getID item) parent = true ->
     exists g',
       loadItem fuel (saveItem [] item ++ rest) parent isHouseItem g
       = Some (true, rest, internalAddThing parent (decoded item), g'))
  /\ (forall (d : list (Item Attrs)) (rest : PropStream) c g,
     Forall storable d ->
     (length (concat (map (saveItem []) d) ++ [0%Z] ++ rest) + 2 <= fuel)%nat ->
     serializationCount c = Z.of_nat (length d) ->
     Z.of_nat (length d) < 4294967296 ->
     exists g',
       loadContainer fuel (concat (map (saveItem []) d) ++ [0] ++ rest) c g
       = Some (true, rest,
               mkContainer (c_id c) (c_attrs c) 0 (rev (map decoded d) ++ itemlist c), g')).
Proof.
  induction fuel as [|fuel [IHitem IHcont]].
  { split; intros; lia. }
  split.
  - intros item rest parent isHouseItem g Hst Hfuel Hleg Hfresh.
    destruct Hst as [item Hleaf Hid (blank & Hcreate & Hattr)
                    | id a n l Hid Hlen (blank & Hcreate & Hattr) Hchildren].
    + assert (E : saveItem [] item ++ rest
                  = bytes_u16 (getID item) ++ serializeAttr item ++ [0] ++ rest).
      { rewrite (saveItem_leaf item Hleaf), <- !app_assoc. reflexivity. }
      rewrite E.
      rewrite (loadItem_unfold_fresh fuel _ (getID item)
                 (serializeAttr item ++ [0] ++ rest) parent isHouseItem g
                 (read_u16_bytes _ _ Hid) Hleg Hfresh).
      rewrite Hcreate.
      assert (Hattr' : unserializeAttr blank (serializeAttr item ++ [0] ++ rest)
                       = (true, item, rest))
        by (destruct item; try discriminate; apply Hattr).
      rewrite Hattr', Hleaf.
      replace (decoded item) with item by (destruct item; try discriminate; reflexivity).
      eexists. reflexivity.
    + assert (E : saveItem [] (ContainerItem id a n l) ++ rest
                  = bytes_u16 id ++ serializeAttr (ContainerItem id a n l)
                      ++ bytes_u8 ATTR_CONTAINER_ITEMS ++ bytes_u32 (Z.of_nat (length l))
                      ++ concat (map (saveItem []) (rev l)) ++ [0] ++ rest).
      { rewrite saveItem_container, <- !app_assoc. reflexivity. }
      rewrite E in Hfuel |- *. simpl getID in *.
      rewrite (loadItem_unfold_fresh fuel _ id _ parent isHouseItem g
                 (read_u16_bytes _ _ Hid) Hleg Hfresh).
      rewrite Hcreate, (Hattr (Z.of_nat (length l)) _ ltac:(lia)).
      cbn [getContainer].
      destruct (IHcont (rev l) rest (mkContainer id a (Z.of_nat (length l)) []) g)
        as (g' & Eload).
      * apply Forall_rev. exact Hchildren.
      * rewrite !length_app in Hfuel. rewrite !length_app. simpl in *. lia.
      * simpl. rewrite length_rev. reflexivity.
      * rewrite length_rev. exact Hlen.
      * rewrite Eload. simpl. rewrite app_nil_r, map_rev, rev_involutive.
        eexists. reflexivity.
  - intros d rest c g Hst Hfuel Hcount Hlen.
    destruct d as [|child d].
    + simpl in *.
      change (loadContainer (S fuel) (0 :: rest) c g)
        with (if 0 <? serializationCount c then
                match loadItem fuel (0 :: rest) (CylContainer c) false g with
                | None => None
                | Some (okItem, propStream, parent, g) =>
                  let container := asContainer parent c in
                  if okItem then loadContainer fuel propStream (decrCount container) g
                  else Some (false, propStream, container, g)
                end
              else
                match read_u8 (0 :: rest) with
                | Some (endAttr, propStream') =>
                  if endAttr =? 0 then Some (true, propStream', c, g)
                  else Some (false, propStream', c, g)
                | None => Some (false, 0 :: rest, c, g)
                end).
      rewrite Hcount. simpl. exists g. destruct c; simpl in *. rewrite Hcount. reflexivity.
    + apply Forall_cons in Hst as [Hchild Hst].
      set (tail := concat (map (saveItem []) d) ++ [0] ++ rest).
      assert (E : concat (map (saveItem []) (child :: d)) ++ [0] ++ rest
                  = saveItem [] child ++ tail).
      { simpl. rewrite <- app_assoc. reflexivity. }
      rewrite E in Hfuel |- *.
      change (loadContainer (S fuel) (saveItem [] child ++ tail) c g)
        with (if 0 <? serializationCount c then
                match loadItem fuel (saveItem [] child ++ tail) (CylContainer c) false g with
                | None => None
                | Some (okItem, propStream, parent, g) =>
                  let container := asContainer parent c in
                  if okItem then loadContainer fuel propStream (decrCount container) g
                  else Some (false, propStream, container, g)
                end
              else
                match read_u8 (saveItem [] child ++ tail) with
                | Some (endAttr, propStream') =>
                  if endAttr =? 0 then Some (true, propStream', c, g)
                  else Some (false, propStream', c, g)
                | None => Some (false, saveItem [] child ++ tail, c, g)
                end).
      replace (0 <? serializationCount c) with true
        by (symmetry; apply Z.ltb_lt; rewrite Hcount; simpl; lia).
      destruct (IHitem child tail (CylContainer c) false g Hchild ltac:(lia))
        as (g1 & Eitem).
      * reflexivity.
      * unfold createsFresh. simpl. rewrite orb_true_r. reflexivity.
      * rewrite Eitem. cbn [internalAddThing asContainer].
        rewrite (decrCount_ok _ (length d)) by (simpl in *; assumption). simpl.
        pose proof (saveItem_length child) as Hchildlen.
        destruct (IHcont d rest
                    (mkContainer (c_id c) (c_attrs c) (Z.of_nat (length d))
                                 (decoded child :: itemlist c)) g1 Hst)
          as (g2 & Econt).
        -- fold tail. rewrite length_app in Hfuel. lia.
        -- reflexivity.
        -- simpl in Hlen. lia.
        -- fold tail in Econt. rewrite Econt. simpl. rewrite <- app_assoc. simpl.
           eexists. reflexivity.
Qed.

(** C1 (amended): a container is written as its id, attributes, the
    container marker, the child count and its children last one first, then
    the terminator; and for every item the format can hold whose decode takes
    the "create a new item" branch (a movable, carpet or bed type, or a
    parent that is a container) and is not stopped by the legacy bed guard,
    decoding the bytes of [saveItem] consumes exactly these bytes and puts
    into the parent the item with the same ids, attributes and children, in
    live order, at every depth. *)
Theorem save_load_roundtrip (fuel : nat) (item : Item Attrs) (rest : PropStream)
    (parent : Cylinder Attrs) (isHouseItem : bool) (g : Game) :
  storable item ->
  legacyBed isHouseItem (getID item) = false ->
  createsFresh (getID item) parent = true ->
  (length (saveItem [] item ++ rest) < fuel)%nat ->
  (forall id a n l,
     saveItem [] (ContainerItem id a n l) =
       bytes_u16 id ++ serializeAttr (ContainerItem id a n l)
         ++ bytes_u8 ATTR_CONTAINER_ITEMS ++ bytes_u32 (Z.of_nat (length l))
         ++ concat (map (saveItem []) (rev l)) ++ [0])
  /\ exists g',
       loadItem fuel (saveItem [] item ++ rest) parent isHouseItem g
       = Some (true, rest, internalAddThing parent (decoded item), g')
       /\ cylinderItems (internalAddThing parent (decoded item))
          = decoded item :: cylinderItems parent.
Proof.
  intros Hst Hleg Hfresh Hfuel. split; [apply saveItem_container|].
  destruct (proj1 (roundtrip_fuel fuel) item rest parent isHouseItem g Hst ltac:(lia)
              Hleg Hfresh) as (g' & E).
  exists g'. split; [exact E | apply cylinderItems_internalAddThing].
Qed.

End RoundTrip.

(** ** House info *)

Section HouseInfoClaims.
Context {Attrs : Type}.

(** The owner decision of one turn of the first loop, on a row whose house
    exists. *)
Lemma loadHouseInfoRow_owner_table (isTransferOnRestart : bool) (row : HouseInfoRow)
    (houses : gmap Z (House Attrs)) (house : House Attrs) (ev : list HouseEvent) :
  houses !! r_id row = Some house ->
  (isTransferOnRestart = false \/ r_new_owner row < 0 ->
     loadHouseInfoRow isTransferOnRestart row houses ev
     = (<[r_id row := restored house (r_owner row) row]> houses,
        ev ++ [EvSetOwner (r_id row) (r_owner row) false]))
  /\ (isTransferOnRestart = true /\ r_new_owner row = 0 ->
     loadHouseInfoRow isTransferOnRestart row houses ev
     = (<[r_id row := restored house 0 row]> houses,
        ev ++ [EvTransferPlayerHouseItems (r_id row) (r_owner row);
               EvSetOwner (r_id row) 0 true]))
  /\ (isTransferOnRestart = true /\ 0 < r_new_owner row ->
     loadHouseInfoRow isTransferOnRestart row houses ev
     = (<[r_id row := restored house (r_new_owner row) row]> houses,
        ev ++ [EvTransferPlayerHouseItems (r_id row) (r_owner row);
               EvSetOwner (r_id row) (r_new_owner row) true])).
Proof.
  intros Hhouse. unfold loadHouseInfoRow, loadHouseOwner, restored. rewrite Hhouse.
  split; [|split].
  - intros [-> | Hneg]; simpl.
    + reflexivity.
    + replace (0 <=? r_new_owner row) with false by (symmetry; apply Z.leb_gt; exact Hneg).
      rewrite andb_false_r. reflexivity.
  - intros [-> Hzero]. rewrite Hzero. reflexivity.
  - intros [-> Hpos]. simpl.
    replace (0 <=? r_new_owner row) with true by (symmetry; apply Z.leb_le; lia).
    replace (r_new_owner row =? 0) with false by (symmetry; apply Z.eqb_neq; lia).
    reflexivity.
Qed.

(** Every row of the first query is handled by [loadHouseInfoRow], in
    order. *)
Lemma loadHouseInfo_rows (isTransferOnRestart : bool) (houseRows : list HouseInfoRow)
    (houses : gmap Z (House Attrs)) :
  loadHouseInfo isTransferOnRestart (Some houseRows) None houses
  = (true,
     (fold_left (fun '(houses, ev) row => loadHouseInfoRow isTransferOnRestart row houses ev)
                houseRows (houses, [])).1,
     (fold_left (fun '(houses, ev) row => loadHouseInfoRow isTransferOnRestart row houses ev)
                houseRows (houses, [])).2).
Proof.
  unfold loadHouseInfo.
  destruct (fold_left _ houseRows (houses, [])) as [houses' ev']. reflexivity.
Qed.

End HouseInfoClaims.

(** ** Decay buckets *)

Module DecayFacts.
Import Decay.

Lemma removeItem_elem_of (item x : ItemRef) (bucket : list ItemRef) :
  x ∈ removeItem item bucket -> x ∈ bucket.
Proof.
  induction bucket as [|y bucket IH]; simpl; [auto|].
  destruct (decide (y = item)); rewrite ?elem_of_cons; intuition.
Qed.

Lemma removeItem_other (item x : ItemRef) (bucket : list ItemRef) :
  x <> item -> x ∈ bucket -> x ∈ removeItem item bucket.
Proof.
  intros Hne. induction bucket as [|y bucket IH]; simpl; [auto|].
  destruct (decide (y = item)) as [->|]; rewrite !elem_of_cons; intuition congruence.
Qed.

Lemma removeItem_NoDup (item : ItemRef) (bucket : list ItemRef) :
  NoDup bucket -> NoDup (removeItem item bucket) /\ item ∉ removeItem item bucket.
Proof.
  induction 1 as [|y bucket Hy Hnd [IH1 IH2]]; simpl.
  - split; [constructor | apply not_elem_of_nil].
  - destruct (decide (y = item)) as [->|Hne].
    + auto.
    + split.
      * constructor; [|exact IH1]. intros Hin. apply Hy. eapply removeItem_elem_of, Hin.
      * rewrite elem_of_cons. intros [E | Hin]; [congruence | contradiction].
Qed.

Lemma empty_consistent : consistent empty.
Proof.
  unfold consistent, empty; simpl. repeat split; intros *; rewrite lookup_empty; discriminate.
Qed.

Lemma stopDecay_consistent (d : Scheduler) (item : ItemRef) :
  consistent d ->
  consistent (stopDecay d item) /\ scheduledAt (stopDecay d item) !! item = None.
Proof.
  intros (Hnd & Hin & Hsched). unfold stopDecay.
  destruct (scheduledAt d !! item) as [tick|] eqn:Hitem.
  2: { split; [repeat split; assumption | exact Hitem]. }
  destruct (Hsched item tick Hitem) as (bucket & Hbucket & Hmem).
  rewrite Hbucket. simpl.
  destruct (removeItem_NoDup item bucket (Hnd tick bucket Hbucket)) as [Hnd' Hgone].
  split; [|apply lookup_delete_eq].
  unfold consistent; simpl. repeat split.
  - intros t b. rewrite lookup_insert. case_decide.
    + intros [= <-]. exact Hnd'.
    + apply Hnd.
  - intros t b x. rewrite lookup_insert. case_decide as Ht.
    + intros [= <-] Hx. subst t.
      assert (x <> item) by (intros ->; contradiction).
      rewrite lookup_delete_ne by congruence.
      eapply Hin; [exact Hbucket | eapply removeItem_elem_of, Hx].
    + intros Hb Hx.
      assert (x <> item).
      { intros ->. pose proof (Hin t b item Hb Hx) as E. rewrite Hitem in E.
        injection E as E. congruence. }
      rewrite lookup_delete_ne by congruence. eapply Hin; eassumption.
  - intros x t. rewrite lookup_delete. case_decide as Hx; [discriminate|].
    intros Hxt. destruct (Hsched x t Hxt) as (b & Hb & Hxb).
    rewrite lookup_insert. case_decide as Ht.
    + subst t. rewrite Hbucket in Hb. injection Hb as <-.
      eexists. split; [reflexivity|]. apply removeItem_other; [congruence | exact Hxb].
    + eauto.
Qed.

Lemma startDecay_consistent (duration : ItemRef -> Z) (now : Z) (d : Scheduler)
    (item : ItemRef) :
  consistent d ->
  consistent (startDecay duration now d item)
  /\ scheduledAt (startDecay duration now d item) !! item = Some (now + duration item).
Proof.
  intros Hd. destruct (stopDecay_consistent d item Hd) as [(Hnd & Hin & Hsched) Hfree].
  unfold startDecay. set (d0 := stopDecay d item) in *.
  set (tick := now + duration item).
  split; [|apply lookup_insert_eq].
  assert (Hfresh : forall t b, decayMap d0 !! t = Some b -> item ∉ b).
  { intros t b Hb Hx. pose proof (Hin t b item Hb Hx) as E. rewrite Hfree in E. discriminate. }
  unfold consistent; simpl. repeat split.
  - intros t b. rewrite lookup_insert. case_decide as Ht; [|apply Hnd].
    intros [= <-]. subst t.
    destruct (decayMap d0 !! tick) as [b0|] eqn:Hb0; simpl.
    + apply NoDup_app. split; [eapply Hnd, Hb0 | split].
      * intros x Hx Hx'. apply list_elem_of_singleton in Hx'. subst x.
        eapply Hfresh; eassumption.
      * apply NoDup_singleton.
    + apply NoDup_singleton.
  - intros t b x. rewrite lookup_insert. case_decide as Ht.
    + intros [= <-] Hx. subst t. apply elem_of_app in Hx as [Hx | Hx].
      * destruct (decayMap d0 !! tick) as [b0|] eqn:Hb0; simpl in Hx.
        -- assert (x <> item) by (intros ->; eapply Hfresh; eassumption).
           rewrite lookup_insert_ne by congruence. eapply Hin; eassumption.
        -- apply elem_of_nil in Hx. contradiction.
      * apply list_elem_of_singleton in Hx. subst x. apply lookup_insert_eq.
    + intros Hb Hx.
      assert (x <> item) by (intros ->; eapply Hfresh; eassumption).
      rewrite lookup_insert_ne by congruence. eapply Hin; eassumption.
  - intros x t. rewrite lookup_insert. case_decide as Hx.
    + intros [= <-]. subst x. rewrite lookup_insert_eq.
      eexists. split; [reflexivity|]. apply elem_of_app. right. apply list_elem_of_singleton.
      reflexivity.
    + intros Hxt. destruct (Hsched x t Hxt) as (b & Hb & Hxb).
      rewrite lookup_insert. case_decide as Ht.
      * subst t. rewrite Hb. simpl. eexists. split; [reflexivity|].
        apply elem_of_app. left. exact Hxb.
      * eauto.
Qed.

Lemma run_snoc (duration : ItemRef -> Z) (ops : list Op) (op : Op) :
  run duration (ops ++ [op]) = step duration (run duration ops) op.
Proof. unfold run. rewrite fold_left_app. reflexivity. Qed.

Lemma run_consistent (duration : ItemRef -> Z) (ops : list Op) :
  consistent (run duration ops).
Proof.
  induction ops as [|op ops IH] using rev_ind.
  - apply empty_consistent.
  - rewrite run_snoc. destruct op as [now item | item]; simpl.
    + apply startDecay_consistent, IH.
    + apply stopDecay_consistent, IH.
Qed.

Lemma occurrences_le_1 (d : Scheduler) (tick : Z) (item : ItemRef) :
  consistent d -> (occurrences d tick item <= 1)%nat.
Proof.
  intros (Hnd & _ & _). unfold occurrences.
  destruct (decayMap d !! tick) as [bucket|] eqn:Hb; [|lia].
  specialize (Hnd tick bucket Hb). clear Hb.
  induction Hnd as [|x bucket Hx Hnd IH]; simpl; [lia|].
  rewrite filter_cons. case_decide as Hxi; simpl; [|exact IH].
  subst x.
  assert (E : filter (fun x => x = item) bucket = []).
  { clear -Hx. induction bucket as [|y bucket IHb]; [reflexivity|].
    rewrite filter_cons. rewrite not_elem_of_cons in Hx. destruct Hx as [Hne Hx].
    case_decide; [congruence | auto]. }
  rewrite E. simpl. lia.
Qed.

Lemma inBucket_elem_of (d : Scheduler) (tick : Z) (item : ItemRef) :
  inBucket d tick item = true <->
  exists bucket, decayMap d !! tick = Some bucket /\ item ∈ bucket.
Proof.
  unfold inBucket, occurrences. rewrite bool_decide_eq_true.
  destruct (decayMap d !! tick) as [bucket|].
  - split.
    + intros Hpos. exists bucket. split; [reflexivity|].
      destruct (filter (fun x => x = item) bucket) as [|y ys] eqn:E; [simpl in Hpos; lia|].
      assert (Hy : y ∈ filter (fun x => x = item) bucket) by (rewrite E; left).
      apply list_elem_of_filter in Hy as [-> Hy]. exact Hy.
    + intros (b & [= <-] & Hin).
      assert (Hy : item ∈ filter (fun x => x = item) bucket)
        by (apply list_elem_of_filter; auto).
      destruct (filter (fun x => x = item) bucket); [inversion Hy | simpl; lia].
  - split; [simpl; lia | intros (b & E & _); discriminate].
Qed.

(** C9: after any sequence of [startDecay] and [stopDecay] calls an item
    is in at most one bucket, and at most once in it; right after
    [stopDecay] the item is in no bucket; right after two [startDecay] calls
    in a row the item is in exactly one bucket, that of the later expiry
    tick. *)
Theorem decay_bucket_invariant (duration : ItemRef -> Z) (ops : list Op) (item : ItemRef) :
  (forall tick1 tick2,
     inBucket (run duration ops) tick1 item = true ->
     inBucket (run duration ops) tick2 item = true -> tick1 = tick2)
  /\ (forall tick, (occurrences (run duration ops) tick item <= 1)%nat)
  /\ (forall tick, inBucket (run duration (ops ++ [Stop item])) tick item = false)
  /\ (forall now1 now2 tick,
        inBucket (run duration (ops ++ [Start now1 item; Start now2 item])) tick item = true
        <-> tick = now2 + duration item).
Proof.
  split; [|split; [|split]].
  - intros tick1 tick2 H1 H2.
    destruct (run_consistent duration ops) as (_ & Hin & _).
    apply inBucket_elem_of in H1 as (b1 & Hb1 & Hx1).
    apply inBucket_elem_of in H2 as (b2 & Hb2 & Hx2).
    pose proof (Hin _ _ _ Hb1 Hx1) as E1. pose proof (Hin _ _ _ Hb2 Hx2) as E2.
    congruence.
  - intros tick. apply occurrences_le_1, run_consistent.
  - intros tick. rewrite run_snoc. simpl.
    destruct (stopDecay_consistent (run duration ops) item (run_consistent duration ops))
      as [(_ & Hin & _) Hfree].
    apply not_true_is_false. intros H.
    apply inBucket_elem_of in H as (b & Hb & Hx).
    rewrite (Hin _ _ _ Hb Hx) in Hfree. discriminate.
  - intros now1 now2 tick.
    replace (ops ++ [Start now1 item; Start now2 item])
      with ((ops ++ [Start now1 item]) ++ [Start now2 item])
      by (rewrite <- app_assoc; reflexivity).
    rewrite run_snoc. simpl.
    destruct (startDecay_consistent duration now2 (run duration (ops ++ [Start now1 item]))
                item (run_consistent duration _)) as [(_ & Hin & Hsched) Hat].
    rewrite inBucket_elem_of. split.
    + intros (b & Hb & Hx). pose proof (Hin _ _ _ Hb Hx) as E. rewrite Hat in E.
      injection E as E. symmetry. exact E.
    + intros ->. apply Hsched. exact Hat.
Qed.

End DecayFacts.

(** ** The concrete codec meets what the theorems ask of the attribute routines *)

Module DemoFacts.
Import Demo.

Lemma readAttrs_advance : AttrsAdvance (Attrs := Attrs).
Proof.
  unfold AttrsAdvance. simpl.
  assert (H : forall n (s : PropStream) item ok item' s',
             (length s <= n)%nat ->
             readAttrs item s = (ok, item', s') -> (length s' <= length s)%nat).
  { induction n as [|n IH]; intros s item ok item' s' Hn E.
    - destruct s; [|simpl in Hn; lia]. injection E as _ _ <-. reflexivity.
    - destruct s as [|tag s1]; [injection E as _ _ <-; reflexivity|].
      simpl in E, Hn.
      destruct (tag mod 256 =? 0); [injection E as _ _ <-; simpl; lia|].
      destruct (tag mod 256 =? 4).
      { destruct s1 as [|b0 [|b1 s2]]; try (injection E as _ _ <-; simpl; lia).
        apply IH in E; simpl in *; lia. }
      destruct (tag mod 256 =? 20).
      { destruct item; try (injection E as _ _ <-; simpl; lia).
        destruct s1 as [|b0 [|b1 [|b2 [|b3 s2]]]]; try (injection E as _ _ <-; simpl; lia).
        apply IH in E; simpl in *; lia. }
      destruct (tag mod 256 =? 23).
      { destruct item; try (injection E as _ _ <-; simpl; lia).
        destruct s1 as [|b0 [|b1 [|b2 [|b3 s2]]]]; simpl in E;
          injection E as _ _ <-; simpl; lia. }
      injection E as _ _ <-. simpl. lia. }
  intros item s ok item' s' E. eapply H; [reflexivity | exact E].
Qed.

Lemma plain_roundtrip (id : Z) (a : Attrs) :
  create id = Some (PlainItem id None) ->
  match a with Some v => 0 <= v < 65536 | None => True end ->
  attrRoundTrip (PlainItem id a).
Proof.
  intros Hcreate Ha. exists (PlainItem id None). split; [exact Hcreate|].
  intros rest. destruct a as [v|]; [|reflexivity].
  change (readAttrs (PlainItem id None) (4 :: bytes_u16 v ++ 0 :: rest)
          = (true, PlainItem id (Some v), rest)).
  pose proof (read_u16_bytes v (0 :: rest) Ha) as E.
  unfold bytes_u16, read_u16 in *. simpl in *. injection E as E. rewrite E. reflexivity.
Qed.

Lemma sack_roundtrip (a : Attrs) (n : Z) (l : list (Item Attrs)) :
  match a with Some v => 0 <= v < 65536 | None => True end ->
  attrRoundTrip (ContainerItem 100 a n l).
Proof.
  intros Ha. exists (ContainerItem 100 None 0 []). split; [reflexivity|].
  intros k rest Hk.
  pose proof (read_u32_bytes k rest Hk) as Ek.
  unfold bytes_u32, read_u32 in Ek. simpl in Ek. injection Ek as Ek.
  destruct a as [v|].
  - change (readAttrs (ContainerItem 100 None 0 [])
              (4 :: bytes_u16 v ++ 23 :: bytes_u32 k ++ rest)
            = (true, ContainerItem 100 (Some v) k [], rest)).
    pose proof (read_u16_bytes v (23 :: bytes_u32 k ++ rest) Ha) as E.
    unfold bytes_u16, read_u16 in E. simpl in E. injection E as E.
    unfold bytes_u16. simpl. rewrite E. simpl. rewrite Ek. reflexivity.
  - change (readAttrs (ContainerItem 100 None 0 []) (23 :: bytes_u32 k ++ rest)
            = (true, ContainerItem 100 None k [], rest)).
    simpl. rewrite Ek. reflexivity.
Qed.

Lemma sack_storable : storable sack.
Proof.
  unfold sack. apply storable_container.
  - lia.
  - simpl. lia.
  - apply sack_roundtrip. lia.
  - repeat constructor; simpl; try lia; apply plain_roundtrip; (reflexivity || lia || exact I).
Qed.

End DemoFacts.

(** ** The theorems at concrete records *)

Module Examples.
Import Demo DemoFacts.

Lemma save_load_roundtrip_witness :
  exists g',
    loadItem 30 (saveItem [] sack ++ []) (CylTile emptyTile) true []
    = Some (true, [], internalAddThing (CylTile emptyTile) (decoded sack), g')
    /\ cylinderItems (internalAddThing (CylTile emptyTile) (decoded sack))
       = decoded sack :: cylinderItems (CylTile emptyTile).
Proof.
  exact (proj2 (save_load_roundtrip 30 sack [] (CylTile emptyTile) true []
                  sack_storable ltac:(reflexivity) ltac:(reflexivity) ltac:(simpl; lia))).
Defined.

(** C1 as stated fails on a saved door: decoded onto the empty tile it is
    read and dropped. *)
Lemma roundtrip_counterexample_door :
  isSavedToHouses door = true
  /\ loadItem 30 (saveItem [] door) (CylTile emptyTile) true []
     = Some (true, [], CylTile emptyTile, [])
  /\ ~ (exists g', loadItem 30 (saveItem [] door) (CylTile emptyTile) true []
                   = Some (true, [], internalAddThing (CylTile emptyTile) door, g')).
Proof.
  split; [reflexivity|]. split; [reflexivity|].
  intros [g' E]. vm_compute in E. discriminate.
Qed.

(** C2 as stated fails on a tile without an item list: for a stationary
    type nothing is added to it. *)
Lemma fresh_counterexample_no_item_list :
  itemList bareTile = None
  /\ loadItem 4 [112; 23; 0] (CylTile bareTile) false []
     = Some (true, [], CylTile bareTile, [])
  /\ ~ (exists ok s' g' item,
          loadItem 4 [112; 23; 0] (CylTile bareTile) false []
          = Some (ok, s', internalAddThing (CylTile bareTile) item, g')).
Proof.
  split; [reflexivity|]. split; [reflexivity|].
  intros (ok & s' & g' & item & E). vm_compute in E. discriminate.
Qed.

(** C3 as stated fails in the throwaway branch: the attribute routine fails
    on tag 99 and [loadItem] returns true. *)
Lemma attr_failure_counterexample_throwaway :
  CreateItem 6000 = Some (PlainItem 6000 None)
  /\ unserializeAttr (PlainItem 6000 None) [99] = (false, PlainItem 6000 None, [])
  /\ loadItem 4 [112; 23; 99] (CylTile emptyTile) true []
     = Some (true, [], CylTile emptyTile, [])
  /\ ~ (exists s' parent' g',
          loadItem 4 [112; 23; 99] (CylTile emptyTile) true []
          = Some (false, s', parent', g')).
Proof.
  repeat (split; [reflexivity|]).
  intros (s' & parent' & g' & E). vm_compute in E. discriminate.
Qed.

(** The matched-item branch on the same failing attribute bytes: the item
    found on the tile is kept and [loadItem] returns true. *)
Lemma attr_failure_matched_item :
  findItem (mkTile origin (Some [PlainItem 6000 (Some 5)])) (items 6000) 6000
  = Some (0%nat, PlainItem 6000 (Some 5))
  /\ loadItem 4 [112; 23; 99] (CylTile (mkTile origin (Some [PlainItem 6000 (Some 5)]))) true []
     = Some (true, [], CylTile (mkTile origin (Some [PlainItem 6000 (Some 5)])), []).
Proof. split; reflexivity. Qed.

Lemma loadHouseItems_never_aborts_witness :
  exists map3 g3,
    loadHouseItems 20 ([] ++ legacyRow :: []) {[origin := emptyTile]} [] = Some (map3, g3).
Proof.
  destruct (proj1 (loadHouseItems_never_aborts 20 [] legacyRow [] {[origin := emptyTile]} []
                     readAttrs_advance
                     ltac:(repeat constructor; simpl; lia)))
    as (map1 & g1 & map2 & g2 & map3 & g3 & _ & _ & _ & E).
  exists map3, g3. exact E.
Defined.

(** C4 as stated fails inside a row: the first item of [legacyRow] is
    rejected, and the item after it is still decoded onto the tile. *)
Lemma loadHouseItems_counterexample_row :
  loadItem 20 [218; 6; 200; 0; 0] (CylTile emptyTile) true []
  = Some (false, [200; 0; 0], CylTile emptyTile, [])
  /\ loadHouseItems 20 [legacyRow] {[origin := emptyTile]} []
     = Some ({[origin := mkTile origin (Some [PlainItem 200 None])]}, [EvStartDecaying 200]).
Proof.
  split; [reflexivity | vm_compute; reflexivity].
Qed.

Lemma loadItem_rejects_legacy_bed_witness :
  loadItem 1 [218; 6; 4; 1; 0; 0] (CylTile emptyTile) true []
  = Some (false, [4; 1; 0; 0], CylTile emptyTile, []).
Proof.
  apply (loadItem_rejects_legacy_bed 0 [218; 6; 4; 1; 0; 0] 1754); [reflexivity | reflexivity | lia].
Defined.

Lemma saveTile_row_layout_witness :
  SaveHouseItemsGuard demoDb [house5]
  = (true, [(5, [100; 0; 200; 0; 7; 2; 0; 0; 0; 136; 19; 4; 3; 0; 0; 100; 0; 4; 7; 0;
                 23; 2; 0; 0; 0; 201; 0; 4; 210; 4; 0; 200; 0; 0; 0])]).
Proof.
  pose proof (proj2 (proj2 (saveTile_row_layout demoDb [house5]))) as H.
  destruct (SaveHouseItemsGuard demoDb [house5]) as [ok rows] eqn:E.
  assert (Hok : ok = true) by (vm_compute in E; congruence). subst ok.
  rewrite (H rows ltac:(reflexivity)). reflexivity.
Defined.

Lemma saveTile_count_wraps_witness :
  read_u32 (drop 5 (saveTile [] (mkTile origin (Some [sack; door]))))
  = Some (Z.of_nat (length (savedItems (mkTile origin (Some [sack; door])))) mod 65536,
          concat (map (saveItem []) (rev (savedItems (mkTile origin (Some [sack; door]))))))
  /\ Z.of_nat (length (savedItems (mkTile origin (Some [sack; door])))) mod 65536 = 2.
Proof.
  split; [|reflexivity].
  refine (proj1 (saveTile_count_wraps (mkTile origin (Some [sack; door])) _)).
  intros E. vm_compute in E. discriminate E.
Defined.

End Examples.

(** * Further properties of the decoder *)

Section DecoderFacts.
Context {Attrs : Type} `{Api : ItemApi Attrs}.

Lemma loadContainer_unfold (fuel : nat) (propStream : PropStream)
    (container : Container Attrs) (g : Game) :
  loadContainer (S fuel) propStream container g =
    if 0 <? serializationCount container then
      match loadItem fuel propStream (CylContainer container) false g with
      | None => None
      | Some (okItem, propStream, parent, g) =>
        if okItem then
          loadContainer fuel propStream (decrCount (asContainer parent container)) g
        else Some (false, propStream, asContainer parent container, g)
      end
    else
      match read_u8 propStream with
      | Some (endAttr, propStream') =>
        if endAttr =? 0 then Some (true, propStream', container, g)
        else Some (false, propStream', container, g)
      | None => Some (false, propStream, container, g)
      end.
Proof. reflexivity. Qed.

Lemma createsFresh_container (id : Z) (c : Container Attrs) :
  createsFresh id (CylContainer c) = true.
Proof. unfold createsFresh. simpl. rewrite orb_true_r. reflexivity. Qed.

(** With a container as parent, [loadItem] leaves the container as it was or
    puts exactly one item at the front of its child list; on failure the
    container is as it was. *)
Lemma loadItem_container_step (fuel : nat) (s : PropStream) (c : Container Attrs)
    (isHouseItem : bool) (g : Game) ok s' parent' g' :
  loadItem fuel s (CylContainer c) isHouseItem g = Some (ok, s', parent', g') ->
  parent' = CylContainer c
  \/ (ok = true /\ exists item, parent' = internalAddThing (CylContainer c) item).
Proof.
  destruct fuel as [|fuel]; [discriminate|].
  destruct (read_u16 s) as [[id s1]|] eqn:Hid.
  2: { simpl. rewrite Hid. intros [= <- <- <- <-]. auto. }
  destruct (legacyBed isHouseItem id) eqn:Hleg.
  { unfold legacyBed in Hleg. simpl. rewrite Hid, Hleg. intros [= <- <- <- <-]. auto. }
  rewrite (loadItem_unfold_fresh fuel s id s1 _ isHouseItem g Hid Hleg
             (createsFresh_container id c)).
  destruct (CreateItem id) as [item|]; [|intros [= <- <- <- <-]; auto].
  destruct (unserializeAttr item s1) as [[okAttr item'] s2].
  destruct okAttr; [|intros [= <- <- <- <-]; auto].
  destruct (getContainer item') as [container|].
  - destruct (loadContainer fuel s2 container g) as [[[[okc s3] c'] g1]|]; [|discriminate].
    destruct okc; intros [= <- <- <- <-]; eauto.
  - intros [= <- <- <- <-]. eauto.
Qed.

(** X1: [loadContainer] only ever adds children, at the front: the container
    keeps its id and attributes and the children it had stay, in order, behind
    the new ones.  With a 32-bit count, at most that many children are added,
    and after a successful load the counter is back at zero. *)
Theorem loadContainer_keeps_children (fuel : nat) (s : PropStream) (c : Container Attrs)
    (g : Game) ok s' c' g' :
  loadContainer fuel s c g = Some (ok, s', c', g') ->
  c_id c' = c_id c /\ c_attrs c' = c_attrs c
  /\ exists added,
       itemlist c' = added ++ itemlist c
       /\ (0 <= serializationCount c < 4294967296 ->
           Z.of_nat (length added) <= serializationCount c
           /\ (ok = true -> serializationCount c' = 0)).
Proof.
  revert s c g ok s' c' g'.
  induction fuel as [|fuel IH]; intros s c g ok s' c' g'; [discriminate|].
  rewrite loadContainer_unfold.
  destruct (0 <? serializationCount c) eqn:Hpos.
  - apply Z.ltb_lt in Hpos.
    destruct (loadItem fuel s (CylContainer c) false g) as [[[[okI s1] p1] g1]|] eqn:Eitem;
      [|discriminate].
    assert (Hstep : exists new, asContainer p1 c
                      = mkContainer (c_id c) (c_attrs c) (serializationCount c)
                                    (new ++ itemlist c)
                    /\ (length new <= 1)%nat).
    { destruct (loadItem_container_step _ _ _ _ _ _ _ _ _ Eitem) as [-> | (_ & item & ->)].
      - exists []. destruct c; simpl. split; [reflexivity | lia].
      - exists [item]. simpl. split; [reflexivity | lia]. }
    destruct Hstep as (new & Hc1 & Hnew). rewrite Hc1.
    destruct okI.
    + intros E. apply IH in E. simpl in E.
      destruct E as (Eid & Eattrs & added & Elist & Hcount).
      split; [exact Eid | split; [exact Eattrs|]].
      exists (added ++ new). split; [rewrite Elist, app_assoc; reflexivity|].
      intros Hrange.
      rewrite Z.mod_small in Hcount by lia.
      destruct (Hcount ltac:(lia)) as [Hlen Hzero].
      split; [rewrite length_app; lia | exact Hzero].
    + intros [= <- <- <- <-]. simpl. split; [reflexivity | split; [reflexivity|]].
      exists new. split; [reflexivity|]. intros Hrange. split; [lia | discriminate].
  - apply Z.ltb_ge in Hpos.
    assert (Hsame : c_id c = c_id c /\ c_attrs c = c_attrs c
                    /\ exists added, itemlist c = added ++ itemlist c
                       /\ (0 <= serializationCount c < 4294967296 ->
                           Z.of_nat (length added) <= serializationCount c
                           /\ (ok = true -> serializationCount c = 0))).
    { split; [reflexivity | split; [reflexivity|]]. exists []. split; [reflexivity|].
      intros Hrange. simpl. split; lia. }
    destruct (read_u8 s) as [[endAttr s1]|]; [destruct (endAttr =? 0)|];
      intros [= <- <- <- <-]; exact Hsame.
Qed.

(** X2: a record whose id the factory does not know makes [loadItem] return
    true after the two id bytes, in the "create a new item" branch and in
    the no-match case alike: the attribute bytes of the record stay in the
    stream and nothing else changes. *)
Theorem loadItem_unknown_type (fuel : nat) (propStream : PropStream) (id : Z)
    (s1 : PropStream) (parent : Cylinder Attrs) (isHouseItem : bool) (g : Game) :
  read_u16 propStream = Some (id, s1) ->
  legacyBed isHouseItem id = false ->
  CreateItem id = None ->
  (createsFresh id parent = true
   \/ exists tile, parent = CylTile tile /\ findItem tile (items id) id = None) ->
  loadItem (S fuel) propStream parent isHouseItem g = Some (true, s1, parent, g).
Proof.
  intros Hid Hleg Hnull Hbranch.
  destruct (createsFresh id parent) eqn:Hfresh.
  - rewrite (loadItem_unfold_fresh fuel propStream id s1 parent isHouseItem g Hid Hleg Hfresh).
    rewrite Hnull. reflexivity.
  - destruct Hbranch as [? | (tile & -> & Hfind)]; [discriminate|].
    rewrite (loadItem_unfold_stationary fuel propStream id s1 tile isHouseItem g Hid Hleg Hfresh).
    rewrite Hfind, Hnull. reflexivity.
Qed.

(** X3: the legacy bed guard does not reach into containers: [loadContainer]
    decodes a child that is a bed with an id below 30000 like any other
    child, puts it into the container and goes on with the next one. *)
Theorem loadContainer_accepts_legacy_bed (fuel : nat) (propStream : PropStream) (id : Z)
    (s1 : PropStream) (container : Container Attrs) (g : Game)
    (blank item' : Item Attrs) (s2 : PropStream) :
  0 < serializationCount container ->
  read_u16 propStream = Some (id, s1) ->
  isBed (items id) = true ->
  id < 30000 ->
  CreateItem id = Some blank ->
  unserializeAttr blank s1 = (true, item', s2) ->
  getContainer item' = None ->
  loadContainer (S (S fuel)) propStream container g =
    loadContainer (S fuel) s2
      (decrCount (asContainer (internalAddThing (CylContainer container) item') container))
      (g ++ [EvStartDecaying id]).
Proof.
  intros Hcount Hid Hbed Hlow Hcreate Hattr Hleaf.
  rewrite loadContainer_unfold.
  replace (0 <? serializationCount container) with true
    by (symmetry; apply Z.ltb_lt; exact Hcount).
  rewrite (loadItem_unfold_fresh fuel propStream id s1 _ false g Hid eq_refl
             (createsFresh_container id container)).
  rewrite Hcreate, Hattr, Hleaf. reflexivity.
Qed.

(** X4: reconciliation in place.  When the scan finds an item for a record of
    a stationary type and its attributes decode, that item is the first one
    of the tile the record matches; what [transformItem] makes of the decoded
    item stands where the found item stood; every other item of the tile and
    the number of items are as before, nothing is created, and the game sees
    that one [transformItem] call and nothing else. *)
Theorem loadItem_reconciles_in_place (fuel : nat) (propStream : PropStream) (id : Z)
    (s1 : PropStream) (tile : Tile Attrs) (tileItems : list (Item Attrs))
    (isHouseItem : bool) (g : Game)
    (idx : nat) (item item' : Item Attrs) (s2 : PropStream) :
  read_u16 propStream = Some (id, s1) ->
  legacyBed isHouseItem id = false ->
  createsFresh id (CylTile tile) = false ->
  itemList tile = Some tileItems ->
  findItem tile (items id) id = Some (idx, item) ->
  unserializeAttr item s1 = (true, item', s2) ->
  getContainer item' = None ->
  tileItems !! idx = Some item
  /\ matchesRecord (items id) id item = true
  /\ (forall j other, (j < idx)%nat -> tileItems !! j = Some other ->
        matchesRecord (items id) id other = false)
  /\ loadItem (S fuel) propStream (CylTile tile) isHouseItem g
     = Some (true, s2,
             CylTile (mkTile (position tile)
                             (Some (<[idx := transformItem item' id]> tileItems))),
             g ++ [EvTransformItem (getID item') id])
  /\ (<[idx := transformItem item' id]> tileItems) !! idx = Some (transformItem item' id)
  /\ (forall j, j <> idx ->
        (<[idx := transformItem item' id]> tileItems) !! j = tileItems !! j)
  /\ length (<[idx := transformItem item' id]> tileItems) = length tileItems.
Proof.
  intros Hid Hleg Hfresh Hlist Hfind Hattr Hleaf.
  pose proof Hfind as Hfind'. unfold findItem in Hfind'. rewrite Hlist in Hfind'.
  apply list_find_Some in Hfind' as (Hlook & Hmatch & Hfirst).
  split; [exact Hlook|]. split; [exact Hmatch|]. split.
  { intros j other Hj Hother. specialize (Hfirst j other Hother Hj).
    destruct (matchesRecord (items id) id other); [contradiction | reflexivity]. }
  split.
  { rewrite (loadItem_unfold_stationary fuel propStream id s1 tile isHouseItem g Hid Hleg Hfresh).
    rewrite Hfind, Hattr, Hleaf. unfold setTileItem. rewrite Hlist. reflexivity. }
  split.
  { apply list_lookup_insert_eq. eapply lookup_lt_Some, Hlook. }
  split.
  { intros j Hj. apply list_lookup_insert_ne. congruence. }
  apply length_insert.
Qed.

(** With a tile as parent, [loadItem] returns a tile at the same position
    that holds the items it held, possibly rewritten in place, or one
    more. *)
Lemma loadItem_tile_step (fuel : nat) (s : PropStream) (tile : Tile Attrs)
    (isHouseItem : bool) (g : Game) ok s' parent' g' :
  loadItem fuel s (CylTile tile) isHouseItem g = Some (ok, s', parent', g') ->
  exists tile',
    parent' = CylTile tile' /\ position tile' = position tile
    /\ (length (cylinderItems (CylTile tile)) <= length (cylinderItems (CylTile tile'))
        <= S (length (cylinderItems (CylTile tile))))%nat.
Proof.
  assert (Hsame : exists tile',
            CylTile tile = CylTile tile' /\ position tile' = position tile
            /\ (length (cylinderItems (CylTile tile)) <= length (cylinderItems (CylTile tile'))
                <= S (length (cylinderItems (CylTile tile))))%nat).
  { exists tile. split; [reflexivity|]. split; [reflexivity|]. lia. }
  assert (Hadd : forall item, exists tile',
            internalAddThing (CylTile tile) item = CylTile tile'
            /\ position tile' = position tile
            /\ (length (cylinderItems (CylTile tile)) <= length (cylinderItems (CylTile tile'))
                <= S (length (cylinderItems (CylTile tile))))%nat).
  { intros item. eexists. split; [reflexivity|]. split; [reflexivity|]. simpl. lia. }
  assert (Hset : forall idx item, exists tile',
            CylTile (setTileItem tile idx item) = CylTile tile'
            /\ position tile' = position tile
            /\ (length (cylinderItems (CylTile tile)) <= length (cylinderItems (CylTile tile'))
                <= S (length (cylinderItems (CylTile tile))))%nat).
  { intros idx item. eexists. split; [reflexivity|]. split; [reflexivity|].
    rewrite length_cylinderItems_setTileItem. lia. }
  destruct fuel as [|fuel]; [discriminate|].
  destruct (read_u16 s) as [[id s1]|] eqn:Hid.
  2: { simpl. rewrite Hid. intros [= <- <- <- <-]. exact Hsame. }
  destruct (legacyBed isHouseItem id) eqn:Hleg.
  { unfold legacyBed in Hleg. simpl. rewrite Hid, Hleg. intros [= <- <- <- <-]. exact Hsame. }
  destruct (createsFresh id (CylTile tile)) eqn:Hfresh.
  - rewrite (loadItem_unfold_fresh fuel s id s1 _ isHouseItem g Hid Hleg Hfresh).
    destruct (CreateItem id) as [item|]; [|intros [= <- <- <- <-]; exact Hsame].
    destruct (unserializeAttr item s1) as [[okAttr item'] s2].
    destruct okAttr; [|intros [= <- <- <- <-]; exact Hsame].
    destruct (getContainer item') as [container|].
    + destruct (loadContainer fuel s2 container g) as [[[[okc s3] c'] g1]|]; [|discriminate].
      destruct okc; intros [= <- <- <- <-]; [apply Hadd | exact Hsame].
    + intros [= <- <- <- <-]. apply Hadd.
  - rewrite (loadItem_unfold_stationary fuel s id s1 tile isHouseItem g Hid Hleg Hfresh).
    destruct (findItem tile (items id) id) as [[idx item]|].
    + destruct (unserializeAttr item s1) as [[okAttr item'] s2].
      destruct okAttr; [|intros [= <- <- <- <-]; apply Hset].
      destruct (getContainer item') as [container|].
      * destruct (loadContainer fuel s2 container g) as [[[[okc s3] c'] g1]|]; [|discriminate].
        destruct okc; intros [= <- <- <- <-]; apply Hset.
      * intros [= <- <- <- <-]. apply Hset.
    + destruct (CreateItem id) as [dummy|]; [|intros [= <- <- <- <-]; exact Hsame].
      destruct (unserializeAttr dummy s1) as [[okAttr dummy'] s2].
      destruct (getContainer dummy') as [container|].
      * destruct (loadContainer fuel s2 container g) as [[[[okc s3] c'] g1]|]; [|discriminate].
        intros [= <- <- <- <-]. exact Hsame.
      * destruct (getSleeper dummy') as [sl|]; [destruct (negb (sl =? 0))|];
          intros [= <- <- <- <-]; exact Hsame.
Qed.

End DecoderFacts.

Section DecoderTermination.
Context {Attrs : Type} `{Api : ItemApi Attrs}.

Lemma loadItem_unfold_short fuel (s : PropStream) (parent : Cylinder Attrs) isHouseItem g :
  read_u16 s = None -> loadItem (S fuel) s parent isHouseItem g = Some (false, s, parent, g).
Proof. intros Hid. simpl. rewrite Hid. reflexivity. Qed.

Lemma loadItem_unfold_legacy fuel (s : PropStream) id s1 (parent : Cylinder Attrs)
    isHouseItem g :
  read_u16 s = Some (id, s1) -> legacyBed isHouseItem id = true ->
  loadItem (S fuel) s parent isHouseItem g = Some (false, s1, parent, g).
Proof. unfold legacyBed. intros Hid Hleg. simpl. rewrite Hid, Hleg. reflexivity. Qed.

Lemma createsFresh_false_tile (id : Z) (parent : Cylinder Attrs) :
  createsFresh id parent = false -> exists tile, parent = CylTile tile.
Proof.
  destruct parent as [tile | c]; [eauto|].
  rewrite createsFresh_container. discriminate.
Qed.

(** More fuel does not change a result. *)
Lemma load_fuel_S (fuel : nat) :
  (forall s (parent : Cylinder Attrs) isHouseItem g r,
     loadItem fuel s parent isHouseItem g = Some r ->
     loadItem (S fuel) s parent isHouseItem g = Some r)
  /\ (forall s (c : Container Attrs) g r,
     loadContainer fuel s c g = Some r -> loadContainer (S fuel) s c g = Some r).
Proof.
  induction fuel as [|fuel [IHitem IHcont]]; [split; intros; discriminate|].
  assert (Hc : forall s (c : Container Attrs) g,
             loadContainer fuel s c g <> None ->
             loadContainer (S fuel) s c g = loadContainer fuel s c g).
  { intros s c g Hsome. destruct (loadContainer fuel s c g) as [r|] eqn:E; [|contradiction].
    apply IHcont. exact E. }
  split.
  - intros s parent isHouseItem g r.
    destruct (read_u16 s) as [[id s1]|] eqn:Hid.
    2: { rewrite !loadItem_unfold_short by exact Hid. auto. }
    destruct (legacyBed isHouseItem id) eqn:Hleg.
    { rewrite !(loadItem_unfold_legacy _ s id s1) by assumption. auto. }
    destruct (createsFresh id parent) eqn:Hfresh.
    + rewrite !(loadItem_unfold_fresh _ s id s1 parent isHouseItem g Hid Hleg Hfresh).
      destruct (CreateItem id) as [item|]; [|auto].
      destruct (unserializeAttr item s1) as [[okAttr item'] s2].
      destruct okAttr; [|auto].
      destruct (getContainer item') as [container|]; [|auto].
      destruct (loadContainer fuel s2 container g) as [x|] eqn:E; [|discriminate].
      rewrite Hc, E by (rewrite E; discriminate). auto.
    + destruct (createsFresh_false_tile id parent Hfresh) as [tile ->].
      rewrite !(loadItem_unfold_stationary _ s id s1 tile isHouseItem g Hid Hleg Hfresh).
      destruct (findItem tile (items id) id) as [[idx item]|].
      * destruct (unserializeAttr item s1) as [[okAttr item'] s2].
        destruct okAttr; [|auto].
        destruct (getContainer item') as [container|]; [|auto].
        destruct (loadContainer fuel s2 container g) as [x|] eqn:E; [|discriminate].
        rewrite Hc, E by (rewrite E; discriminate). auto.
      * destruct (CreateItem id) as [dummy|]; [|auto].
        destruct (unserializeAttr dummy s1) as [[okAttr dummy'] s2].
        destruct (getContainer dummy') as [container|]; [|auto].
        destruct (loadContainer fuel s2 container g) as [x|] eqn:E; [|discriminate].
        rewrite Hc, E by (rewrite E; discriminate). auto.
  - intros s c g r. rewrite !loadContainer_unfold.
    destruct (0 <? serializationCount c); [|auto].
    destruct (loadItem fuel s (CylContainer c) false g) as [x|] eqn:E; [|discriminate].
    rewrite (IHitem _ _ _ _ _ E). destruct x as [[[okI s1] p1] g1].
    destruct okI; [|auto]. apply IHcont.
Qed.

Lemma loadItem_fuel_le (fuel fuel' : nat) s (parent : Cylinder Attrs) isHouseItem g r :
  (fuel <= fuel')%nat ->
  loadItem fuel s parent isHouseItem g = Some r ->
  loadItem fuel' s parent isHouseItem g = Some r.
Proof.
  induction 1 as [|fuel' _ IH]; [auto|].
  intros E. apply (proj1 (load_fuel_S fuel')), IH, E.
Qed.

Lemma loadContainer_fuel_le (fuel fuel' : nat) s (c : Container Attrs) g r :
  (fuel <= fuel')%nat ->
  loadContainer fuel s c g = Some r -> loadContainer fuel' s c g = Some r.
Proof.
  induction 1 as [|fuel' _ IH]; [auto|].
  intros E. apply (proj2 (load_fuel_S fuel')), IH, E.
Qed.

(** X5: the decoder always comes to an end, whatever the bytes and however
    large a child count they announce: on a stream of n bytes [loadItem]
    returns within n + 1 nested calls and [loadContainer] within n + 2, more
    fuel changes nothing, the cursor never moves back, and a successful
    [loadItem] has consumed at least the two id bytes. *)
Theorem decoder_terminates (s : PropStream) :
  AttrsAdvance ->
  (forall (parent : Cylinder Attrs) isHouseItem g,
     exists ok s' parent' g',
       (forall fuel, (length s + 1 <= fuel)%nat ->
          loadItem fuel s parent isHouseItem g = Some (ok, s', parent', g'))
       /\ (length s' <= length s)%nat
       /\ (ok = true -> (length s' + 2 <= length s)%nat))
  /\ (forall (container : Container Attrs) g,
     exists ok s' container' g',
       (forall fuel, (length s + 2 <= fuel)%nat ->
          loadContainer fuel s container g = Some (ok, s', container', g'))
       /\ (length s' <= length s)%nat).
Proof.
  intros Hadv. split.
  - intros parent isHouseItem g.
    destruct (proj1 (load_total Hadv (length s + 1)) s parent isHouseItem g ltac:(lia))
      as (ok & s' & p' & g' & E & L1 & L2).
    exists ok, s', p', g'. split; [|auto].
    intros fuel Hfuel. eapply loadItem_fuel_le; eassumption.
  - intros container g.
    destruct (proj2 (load_total Hadv (length s + 2)) s container g ltac:(lia))
      as (ok & s' & c' & g' & E & L).
    exists ok, s', c', g'. split; [|auto].
    intros fuel Hfuel. eapply loadContainer_fuel_le; eassumption.
Qed.

End DecoderTermination.

Section DecoderEffects.
Context {Attrs : Type} `{Api : ItemApi Attrs}.


(** X6: the calls the decoder itself makes on items and on the game
    ([startDecaying], [transformItem], [removeBedSleeper]; what the attribute
    routine does is outside).  Calls already recorded stay, new ones come
    behind them.  One call of [loadItem] starts items decaying and after that
    makes at most one call on the game: either [transformItem], once, as its
    last act, with the id of the record, on a tile where the scan found an
    item, with result true; or [removeBedSleeper], once, with a non-zero guid
    and nothing started decaying, on a tile that it returns unchanged, with
    result true.  [loadContainer] makes no call on the game at all: whatever
    a container holds, its children are only started decaying. *)
Theorem decoder_effects (fuel : nat) :
  (forall s (parent : Cylinder Attrs) isHouseItem g ok s' parent' g',
     loadItem fuel s parent isHouseItem g = Some (ok, s', parent', g') ->
     exists starts last,
       g' = g ++ starts ++ last
       /\ Forall (fun ev => startsDecaying ev = true) starts
       /\ (last = []
           \/ (exists itemId id s1 tile idx item,
                 last = [EvTransformItem itemId id]
                 /\ read_u16 s = Some (id, s1)
                 /\ parent = CylTile tile
                 /\ findItem tile (items id) id = Some (idx, item)
                 /\ ok = true)
           \/ (exists guid tile,
                 guid <> 0 /\ last = [EvRemoveBedSleeper guid] /\ starts = []
                 /\ parent = CylTile tile /\ parent' = parent /\ ok = true)))
  /\ (forall s (c : Container Attrs) g ok s' c' g',
     loadContainer fuel s c g = Some (ok, s', c', g') ->
     exists starts, g' = g ++ starts /\ Forall (fun ev => startsDecaying ev = true) starts).
Proof.
  induction fuel as [|fuel [IHitem IHcont]]; [split; intros; discriminate|].
  assert (Hstart : forall (g : Game) (starts : list GameEvent) (r : option (Z * PropStream))
                     (parent parent' : Cylinder Attrs) (ok : bool),
             Forall (fun ev => startsDecaying ev = true) starts ->
             exists starts0 last,
               g ++ starts = g ++ starts0 ++ last
               /\ Forall (fun ev => startsDecaying ev = true) starts0
               /\ (last = []
                   \/ (exists itemId id s1 tile idx item,
                         last = [EvTransformItem itemId id]
                         /\ r = Some (id, s1)
                         /\ parent = CylTile tile
                         /\ findItem tile (items id) id = Some (idx, item)
                         /\ ok = true)
                   \/ (exists guid tile,
                         guid <> 0 /\ last = [EvRemoveBedSleeper guid] /\ starts0 = []
                         /\ parent = CylTile tile /\ parent' = parent /\ ok = true))).
  { intros g starts r parent parent' ok Hst. exists starts, [].
    rewrite app_nil_r. auto. }
  assert (Hkeep : forall (g : Game) (r : option (Z * PropStream))
                    (parent parent' : Cylinder Attrs) (ok : bool),
             exists starts0 last,
               g = g ++ starts0 ++ last
               /\ Forall (fun ev => startsDecaying ev = true) starts0
               /\ (last = []
                   \/ (exists itemId id s1 tile idx item,
                         last = [EvTransformItem itemId id]
                         /\ r = Some (id, s1)
                         /\ parent = CylTile tile
                         /\ findItem tile (items id) id = Some (idx, item)
                         /\ ok = true)
                   \/ (exists guid tile,
                         guid <> 0 /\ last = [EvRemoveBedSleeper guid] /\ starts0 = []
                         /\ parent = CylTile tile /\ parent' = parent /\ ok = true))).
  { intros g r parent parent' ok.
    destruct (Hstart g [] r parent parent' ok ltac:(constructor)) as (st & last & E & H).
    rewrite app_nil_r in E. eauto. }
  split.
  - intros s parent isHouseItem g ok s' parent' g'.
    destruct (read_u16 s) as [[id s1]|] eqn:Hid.
    2: { rewrite loadItem_unfold_short by exact Hid. intros [= <- <- <- <-]. apply Hkeep. }
    destruct (legacyBed isHouseItem id) eqn:Hleg.
    { rewrite (loadItem_unfold_legacy _ s id s1) by assumption.
      intros [= <- <- <- <-]. apply Hkeep. }
    destruct (createsFresh id parent) eqn:Hfresh.
    + rewrite (loadItem_unfold_fresh _ s id s1 parent isHouseItem g Hid Hleg Hfresh).
      destruct (CreateItem id) as [item|]; [|intros [= <- <- <- <-]; apply Hkeep].
      destruct (unserializeAttr item s1) as [[okAttr item'] s2].
      destruct okAttr; [|intros [= <- <- <- <-]; apply Hkeep].
      destruct (getContainer item') as [container|].
      * destruct (loadContainer fuel s2 container g) as [[[[okc s3] c'] g1]|] eqn:E;
          [|discriminate].
        apply IHcont in E as (evs & -> & Hevs).
        destruct okc; intros [= <- <- <- <-].
        -- rewrite <- app_assoc. apply Hstart. apply Forall_app. split; [exact Hevs|].
           constructor; [reflexivity | constructor].
        -- apply Hstart. exact Hevs.
      * intros [= <- <- <- <-]. apply Hstart. constructor; [reflexivity | constructor].
    + destruct (createsFresh_false_tile id parent Hfresh) as [tile ->].
      rewrite (loadItem_unfold_stationary _ s id s1 tile isHouseItem g Hid Hleg Hfresh).
      destruct (findItem tile (items id) id) as [[idx item]|] eqn:Hfind.
      * destruct (unserializeAttr item s1) as [[okAttr item'] s2].
        destruct okAttr; [|intros [= <- <- <- <-]; apply Hkeep].
        destruct (getContainer item') as [container|].
        -- destruct (loadContainer fuel s2 container g) as [[[[okc s3] c'] g1]|] eqn:E;
             [|discriminate].
           apply IHcont in E as (evs & -> & Hevs).
           destruct okc; intros [= <- <- <- <-]; [|apply Hstart; exact Hevs].
           exists evs, [EvTransformItem (c_id c') id]. rewrite <- app_assoc.
           split; [reflexivity|]. split; [exact Hevs|]. right. left.
           exists (c_id c'), id, s1, tile, idx, item. auto.
        -- intros [= <- <- <- <-]. exists [], [EvTransformItem (getID item') id].
           split; [reflexivity|]. split; [constructor|]. right. left.
           exists (getID item'), id, s1, tile, idx, item. auto.
      * destruct (CreateItem id) as [dummy|]; [|intros [= <- <- <- <-]; apply Hkeep].
        destruct (unserializeAttr dummy s1) as [[okAttr dummy'] s2].
        destruct (getContainer dummy') as [container|].
        -- destruct (loadContainer fuel s2 container g) as [[[[okc s3] c'] g1]|] eqn:E;
             [|discriminate].
           apply IHcont in E as (evs & -> & Hevs).
           intros [= <- <- <- <-]. apply Hstart. exact Hevs.
        -- destruct (getSleeper dummy') as [sleeperGUID|];
             [|intros [= <- <- <- <-]; apply Hkeep].
           destruct (sleeperGUID =? 0) eqn:Hzero; simpl;
             intros [= <- <- <- <-]; [apply Hkeep|].
           exists [], [EvRemoveBedSleeper sleeperGUID]. split; [reflexivity|].
           split; [constructor|]. right. right.
           exists sleeperGUID, tile. apply Z.eqb_neq in Hzero.
           repeat (split; [first [exact Hzero | reflexivity]|]). reflexivity.
  - intros s c g ok s' c' g'. rewrite loadContainer_unfold.
    destruct (0 <? serializationCount c).
    + destruct (loadItem fuel s (CylContainer c) false g) as [[[[okI s1] p1] g1]|] eqn:E;
        [|discriminate].
      apply IHitem in E as (starts & last & -> & Hst & Hlast).
      assert (Hl : last = []).
      { destruct Hlast as [Hl | [(? & ? & ? & tile & ? & ? & _ & _ & Hp & _)
                                | (? & tile & _ & _ & _ & Hp & _)]];
          [exact Hl | discriminate | discriminate]. }
      subst last. rewrite app_nil_r.
      destruct okI.
      * intros E2. apply IHcont in E2 as (evs2 & -> & Hevs2).
        exists (starts ++ evs2). rewrite app_assoc. split; [reflexivity|].
        apply Forall_app. auto.
      * intros [= <- <- <- <-]. exists starts. auto.
    + assert (Hnil : exists starts : list GameEvent,
                 g = g ++ starts /\ Forall (fun ev => startsDecaying ev = true) starts).
      { exists []. rewrite app_nil_r. split; [reflexivity | constructor]. }
      destruct (read_u8 s) as [[endAttr s1]|]; [destruct (endAttr =? 0)|];
        intros [= <- <- <- <-]; exact Hnil.
Qed.

End DecoderEffects.

(** ** The branches of [loadItem] *)

Section LoadItemBranchClaims.
Context {Attrs : Type} `{Api : ItemApi Attrs}.

(** C2 (amended): [loadItem] takes its "create a new item" branch exactly
    when the type is movable, or the parent is not a root tile (it is a
    container), or the type is a carpet or bed kind.  In that branch the item
    the factory created is put into the parent, decoded, exactly when its
    attributes decode and, for a container, its nested container decodes;
    the parent is left alone when either fails or the factory does not know
    the id.  In the other branch, which includes a tile without an item list,
    the parent is a tile that keeps the number of items it had: the item the
    scan found is overwritten where it stands, and nothing changes when the
    scan finds none. *)
Theorem loadItem_fresh_iff (fuel : nat) (propStream : PropStream) (id : Z) (s1 : PropStream)
    (parent : Cylinder Attrs) (isHouseItem : bool) (g : Game) :
  AttrsAdvance ->
  (length propStream <= fuel)%nat ->
  read_u16 propStream = Some (id, s1) ->
  legacyBed isHouseItem id = false ->
  exists ok s' parent' g',
    loadItem (S fuel) propStream parent isHouseItem g = Some (ok, s', parent', g')
    /\ if moveable (items id) || isNull (rootTile parent) || isCarpet (items id)
          || isBed (items id)
       then match CreateItem id with
            | Some blank =>
                match unserializeAttr blank s1 with
                | (true, item, s2) =>
                    match getContainer item with
                    | Some container =>
                        exists okCont container' g1,
                          loadContainer fuel s2 container g = Some (okCont, s', container', g1)
                          /\ if okCont
                             then ok = true
                                  /\ parent' = internalAddThing parent (ofContainer container')
                                  /\ cylinderItems parent'
                                     = ofContainer container' :: cylinderItems parent
                                  /\ g' = g1 ++ [EvStartDecaying id]
                             else ok = false /\ parent' = parent /\ g' = g1
                    | None =>
                        ok = true /\ s' = s2
                        /\ parent' = internalAddThing parent item
                        /\ cylinderItems parent' = item :: cylinderItems parent
                        /\ g' = g ++ [EvStartDecaying id]
                    end
                | (false, _, s2) => ok = false /\ s' = s2 /\ parent' = parent /\ g' = g
                end
            | None => ok = true /\ s' = s1 /\ parent' = parent /\ g' = g
            end
       else exists tile,
              parent = CylTile tile
              /\ length (cylinderItems parent') = length (cylinderItems parent)
              /\ match findItem tile (items id) id with
                 | Some (idx, _) =>
                     exists item', parent' = CylTile (setTileItem tile idx item')
                 | None => parent' = parent
                 end.
Proof.
  intros Hadv Hfuel Hid Hleg.
  pose proof (read_u16_length _ _ _ Hid) as [Hlen _].
  destruct (moveable (items id) || isNull (rootTile parent) || isCarpet (items id)
            || isBed (items id)) eqn:Hfresh.
  - rewrite (loadItem_unfold_fresh fuel propStream id s1 parent isHouseItem g Hid Hleg Hfresh).
    destruct (CreateItem id) as [blank|].
    2: { eexists _, _, _, _. split; [reflexivity | auto]. }
    destruct (unserializeAttr blank s1) as [[okAttr item] s2] eqn:Hattr.
    apply Hadv in Hattr.
    destruct okAttr.
    2: { eexists _, _, _, _. split; [reflexivity | auto]. }
    destruct (getContainer item) as [container|].
    2: { eexists _, _, _, _. split; [reflexivity |].
         repeat (split; [reflexivity|]). split; [apply cylinderItems_internalAddThing|].
         reflexivity. }
    destruct (proj2 (load_total Hadv fuel) s2 container g ltac:(lia))
      as (okc & s3 & c' & g1 & E & _).
    rewrite E.
    destruct okc; eexists _, _, _, _; (split; [reflexivity|]); eexists _, _, _;
      (split; [reflexivity|]).
    + repeat (split; [reflexivity|]). split; [apply cylinderItems_internalAddThing|].
      reflexivity.
    + repeat (split; [reflexivity|]). reflexivity.
  - destruct parent as [tile | c].
    2: { simpl in Hfresh. rewrite orb_true_r in Hfresh. discriminate. }
    rewrite (loadItem_unfold_stationary fuel propStream id s1 tile isHouseItem g Hid Hleg Hfresh).
    destruct (findItem tile (items id) id) as [[idx item]|] eqn:Hfind.
    + destruct (unserializeAttr item s1) as [[okAttr item'] s2] eqn:Hattr.
      apply Hadv in Hattr.
      destruct okAttr.
      2: { eexists _, _, _, _. split; [reflexivity|]. exists tile. split; [reflexivity|].
           split; [apply length_cylinderItems_setTileItem | rewrite Hfind; eexists; reflexivity]. }
      destruct (getContainer item') as [container|].
      2: { eexists _, _, _, _. split; [reflexivity|]. exists tile. split; [reflexivity|].
           split; [apply length_cylinderItems_setTileItem | rewrite Hfind; eexists; reflexivity]. }
      destruct (proj2 (load_total Hadv fuel) s2 container g ltac:(lia))
        as (okc & s3 & c' & g' & -> & _).
      destruct okc; eexists _, _, _, _; (split; [reflexivity|]); exists tile;
        (split; [reflexivity|]);
        (split; [apply length_cylinderItems_setTileItem | rewrite Hfind; eexists; reflexivity]).
    + destruct (CreateItem id) as [dummy|].
      2: { eexists _, _, _, _. split; [reflexivity|]. exists tile. rewrite Hfind. auto. }
      destruct (unserializeAttr dummy s1) as [[okAttr dummy'] s2] eqn:Hattr.
      apply Hadv in Hattr.
      destruct (getContainer dummy') as [container|].
      * destruct (proj2 (load_total Hadv fuel) s2 container g ltac:(lia))
          as (okc & s3 & c' & g' & -> & _).
        eexists _, _, _, _. split; [reflexivity|]. exists tile. rewrite Hfind. auto.
      * destruct (getSleeper dummy') as [sl|]; [destruct (negb (sl =? 0))|];
          eexists _, _, _, _; (split; [reflexivity|]); exists tile; rewrite Hfind; auto.
Qed.

(** C3 (amended): when the attribute-deserialization routine fails on a
    freshly created item, [loadItem] returns false and leaves the parent
    alone; a container child is always decoded that way, so the containing
    [loadContainer] fails as well.  In the throwaway branch the routine's
    result is not looked at: with a throwaway that is not a container
    [loadItem] returns true, and with one that is a container it returns
    what [loadContainer] returns for it, false exactly when that nested load
    fails. *)
Theorem loadItem_attr_failure (fuel : nat) (propStream : PropStream) (id : Z) (s1 : PropStream)
    (blank item' : Item Attrs) (s2 : PropStream) :
  read_u16 propStream = Some (id, s1) ->
  CreateItem id = Some blank ->
  unserializeAttr blank s1 = (false, item', s2) ->
  (forall parent isHouseItem g,
     legacyBed isHouseItem id = false ->
     createsFresh id parent = true ->
     loadItem (S fuel) propStream parent isHouseItem g = Some (false, s2, parent, g))
  /\ (forall container g,
     0 < serializationCount container ->
     loadContainer (S (S fuel)) propStream container g = Some (false, s2, container, g))
  /\ (forall tile isHouseItem g,
     legacyBed isHouseItem id = false ->
     createsFresh id (CylTile tile) = false ->
     findItem tile (items id) id = None ->
     getContainer item' = None ->
     exists g', loadItem (S fuel) propStream (CylTile tile) isHouseItem g
                = Some (true, s2, CylTile tile, g'))
  /\ (forall tile isHouseItem g container,
     AttrsAdvance ->
     (length propStream <= fuel)%nat ->
     legacyBed isHouseItem id = false ->
     createsFresh id (CylTile tile) = false ->
     findItem tile (items id) id = None ->
     getContainer item' = Some container ->
     exists okCont s3 container' g',
       loadContainer fuel s2 container g = Some (okCont, s3, container', g')
       /\ loadItem (S fuel) propStream (CylTile tile) isHouseItem g
          = Some (okCont, s3, CylTile tile, g')).
Proof.
  intros Hid Hcreate Hattr.
  assert (Hfresh : forall parent isHouseItem g,
             legacyBed isHouseItem id = false ->
             createsFresh id parent = true ->
             loadItem (S fuel) propStream parent isHouseItem g = Some (false, s2, parent, g)).
  { intros parent isHouseItem g Hleg Hf.
    rewrite (loadItem_unfold_fresh fuel propStream id s1 parent isHouseItem g Hid Hleg Hf).
    rewrite Hcreate, Hattr. reflexivity. }
  split; [exact Hfresh | split; [|split]].
  - intros container g Hcount.
    rewrite loadContainer_unfold.
    replace (0 <? serializationCount container) with true
      by (symmetry; apply Z.ltb_lt; exact Hcount).
    rewrite Hfresh; [reflexivity | reflexivity | apply createsFresh_container].
  - intros tile isHouseItem g Hleg Hf Hfind Hcont.
    rewrite (loadItem_unfold_stationary fuel propStream id s1 tile isHouseItem g Hid Hleg Hf).
    rewrite Hfind, Hcreate, Hattr, Hcont.
    destruct (getSleeper item') as [sl|]; [destruct (negb (sl =? 0))|]; eexists; reflexivity.
  - intros tile isHouseItem g container Hadv Hfuel Hleg Hf Hfind Hcont.
    rewrite (loadItem_unfold_stationary fuel propStream id s1 tile isHouseItem g Hid Hleg Hf).
    rewrite Hfind, Hcreate, Hattr, Hcont.
    apply read_u16_length in Hid as [Hlen _]. apply Hadv in Hattr.
    destruct (proj2 (load_total Hadv fuel) s2 container g ltac:(lia))
      as (okc & s3 & c' & g' & E & _).
    rewrite E. exists okc, s3, c', g'. split; reflexivity.
Qed.


End LoadItemBranchClaims.

Section LoadHouseItemsFacts.
Context {Attrs : Type} `{Api : ItemApi Attrs}.

Lemma loadTileItems_grows (fuel : nat) (item_count : nat) :
  forall (s : PropStream) (tile : Tile Attrs) (g : Game) s' tile' g',
    loadTileItems fuel item_count s tile g = Some (s', tile', g') ->
    grownFrom tile tile'
    /\ (length (cylinderItems (CylTile tile')) <=
        length (cylinderItems (CylTile tile)) + item_count)%nat.
Proof.
  induction item_count as [|n IH]; intros s tile g s' tile' g'; cbn [loadTileItems].
  - intros [= <- <- <-]. unfold grownFrom. split; [split; [reflexivity|]|]; lia.
  - destruct (loadItem fuel s (CylTile tile) true g) as [[[[ok s1] p1] g1]|] eqn:E;
      [|discriminate].
    destruct (loadItem_tile_step _ _ _ _ _ _ _ _ _ E) as (t1 & -> & Hpos & Hlen).
    intros E'. apply IH in E' as [[Hpos' Hlen'] Hup]. cbn [asTile] in *.
    unfold grownFrom. split; [split; [congruence | lia] | lia].
Qed.

Lemma loadHouseRow_cases (fuel : nat) (attr : list Z) (map : gmap Position (Tile Attrs))
    (g : Game) map' g' :
  loadHouseRow fuel attr map g = Some (map', g') ->
  (map' = map /\ g' = g)
  \/ exists pos tile tile' (n : Z),
       map !! pos = Some tile /\ map' = <[pos := tile']> map /\ grownFrom tile tile'
       /\ (length (cylinderItems (CylTile tile')) <=
           length (cylinderItems (CylTile tile)) + Z.to_nat n)%nat.
Proof.
  unfold loadHouseRow.
  destruct (read_u16 attr) as [[x s1]|]; [|intros [= <- <-]; auto].
  destruct (read_u16 s1) as [[y s2]|]; [|intros [= <- <-]; auto].
  destruct (read_u8 s2) as [[z s3]|]; [|intros [= <- <-]; auto].
  destruct (map !! mkPosition x y z) as [tile|] eqn:Htile; [|intros [= <- <-]; auto].
  destruct (read_u32 s3) as [[item_count s4]|]; [|intros [= <- <-]; auto].
  destruct (loadTileItems fuel (Z.to_nat item_count) s4 tile g) as [[[s5 tile'] g1]|] eqn:E;
    [|discriminate].
  intros [= <- <-]. right. apply loadTileItems_grows in E as [Hgrow Hup].
  exists (mkPosition x y z), tile, tile', item_count. auto.
Qed.

(** X7: [loadHouseItems] never creates a tile, never removes one and never
    takes an item off a tile: after any rows the map has the positions it
    had, and the tile at each position is at the same position and holds at
    least as many items as before. *)
Theorem loadHouseItems_keeps_tiles (fuel : nat) (rows : list (list Z))
    (map : gmap Position (Tile Attrs)) (g : Game) map' g' :
  loadHouseItems fuel rows map g = Some (map', g') ->
  dom map' = dom map
  /\ forall pos tile, map !! pos = Some tile ->
       exists tile', map' !! pos = Some tile' /\ grownFrom tile tile'.
Proof.
  revert map g. induction rows as [|attr rows IH]; intros map g; simpl.
  - intros [= <- <-]. split; [reflexivity|]. intros pos tile Htile.
    exists tile. unfold grownFrom. split; [exact Htile | split; [reflexivity | lia]].
  - destruct (loadHouseRow fuel attr map g) as [[map1 g1]|] eqn:Erow; [|discriminate].
    intros E. apply IH in E as [Hdom Htiles].
    apply loadHouseRow_cases in Erow
      as [[-> ->] | (pos0 & t0 & t0' & n & Hpos0 & -> & Hgrow & _)]; [auto|].
    split.
    + rewrite Hdom. apply dom_insert_lookup_L. eauto.
    + intros pos tile Htile. destruct (decide (pos = pos0)) as [->|Hne].
      * rewrite Hpos0 in Htile. injection Htile as <-.
        destruct (Htiles pos0 t0' (lookup_insert_eq _ _ _)) as (t2 & Ht2 & Hg2).
        exists t2. split; [exact Ht2|]. unfold grownFrom in *.
        destruct Hgrow, Hg2. split; [congruence | lia].
      * apply Htiles. rewrite lookup_insert_ne by congruence. exact Htile.
Qed.

(** X8: rows that cannot be placed are skipped without a trace.  A blob of
    fewer than 9 bytes (no complete position and count), a blob whose
    position has no tile in the map, and a blob with item count 0 all leave
    the map and the game exactly as they were. *)
Theorem loadHouseRow_skips (fuel : nat) (map : gmap Position (Tile Attrs)) (g : Game) :
  (forall attr : list Z, (length attr < 9)%nat -> loadHouseRow fuel attr map g = Some (map, g))
  /\ (forall x y z (rest : list Z),
        0 <= x < 65536 -> 0 <= y < 65536 -> 0 <= z < 256 ->
        map !! mkPosition x y z = None ->
        loadHouseRow fuel (bytes_u16 x ++ bytes_u16 y ++ bytes_u8 z ++ rest) map g
        = Some (map, g))
  /\ (forall x y z (rest : list Z),
        0 <= x < 65536 -> 0 <= y < 65536 -> 0 <= z < 256 ->
        loadHouseRow fuel (bytes_u16 x ++ bytes_u16 y ++ bytes_u8 z ++ bytes_u32 0 ++ rest) map g
        = Some (map, g)).
Proof.
  split; [|split].
  - intros attr Hlen. unfold loadHouseRow.
    destruct (read_u16 attr) as [[x s1]|] eqn:Hx; [|reflexivity].
    apply read_u16_length in Hx as [Hx _].
    destruct (read_u16 s1) as [[y s2]|] eqn:Hy; [|reflexivity].
    apply read_u16_length in Hy as [Hy _].
    destruct (read_u8 s2) as [[z s3]|] eqn:Hz; [|reflexivity].
    apply read_u8_length in Hz.
    destruct (map !! mkPosition x y z) as [tile|]; [|reflexivity].
    destruct (read_u32 s3) as [[n s4]|] eqn:Hn; [|reflexivity].
    destruct s3 as [|? [|? [|? [|? ?]]]]; simpl in Hn; try discriminate.
    simpl in *. lia.
  - intros x y z rest Hx Hy Hz Hnone. unfold loadHouseRow.
    rewrite (read_u16_bytes x _ Hx), (read_u16_bytes y _ Hy), (read_u8_bytes z _ Hz), Hnone.
    reflexivity.
  - intros x y z rest Hx Hy Hz. unfold loadHouseRow.
    rewrite (read_u16_bytes x _ Hx), (read_u16_bytes y _ Hy), (read_u8_bytes z _ Hz).
    destruct (map !! mkPosition x y z) as [tile|] eqn:Htile; [|reflexivity].
    rewrite (read_u32_bytes 0 rest ltac:(lia)). simpl.
    rewrite insert_id by exact Htile. reflexivity.
Qed.

Lemma loadTileItems_roundtrip (fuel : nat) (d : list (Item Attrs)) :
  forall (rest : PropStream) (tile : Tile Attrs) (g : Game),
    Forall reloadable d ->
    (length (concat (map (saveItem []) d) ++ rest) < fuel)%nat ->
    exists g',
      loadTileItems fuel (length d) (concat (map (saveItem []) d) ++ rest) tile g
      = Some (rest,
              match d with
              | [] => tile
              | _ :: _ => mkTile (position tile)
                                 (Some (rev (map decoded d) ++ default [] (itemList tile)))
              end, g').
Proof.
  induction d as [|item d IH]; intros rest tile g Hd Hfuel.
  - simpl. eauto.
  - apply Forall_cons in Hd as [(Hst & Htype & Hleg) Hd].
    cbn [map concat length loadTileItems]. rewrite <- app_assoc.
    cbn [map concat] in Hfuel. rewrite <- app_assoc in Hfuel.
    destruct (proj1 (roundtrip_fuel fuel) item (concat (map (saveItem []) d) ++ rest)
                (CylTile tile) true g Hst ltac:(lia) Hleg) as (g1 & E).
    { unfold createsFresh. simpl. rewrite orb_false_r. exact Htype. }
    rewrite E. cbn [internalAddThing asTile].
    destruct (IH rest (mkTile (position tile) (Some (decoded item :: default [] (itemList tile))))
                g1 Hd) as (g2 & E2).
    { rewrite length_app in Hfuel. lia. }
    rewrite E2. exists g2. do 3 f_equal.
    destruct d as [|item2 d]; simpl; [reflexivity|].
    rewrite <- !app_assoc. reflexivity.
Qed.

(** X9: a tile snapshot comes back.  When every saved item of a tile can be
    recreated, there are fewer than 65536 of them and the position fits its
    fields, loading the blob [saveTile] wrote into a map that has a tile at
    that position puts the saved items, in their tile order, in front of the
    items that tile holds. *)
Theorem saveTile_loadHouseRow_roundtrip (fuel : nat) (tile tile0 : Tile Attrs)
    (world : gmap Position (Tile Attrs)) (g : Game) :
  savedItems tile <> [] ->
  Forall reloadable (savedItems tile) ->
  Z.of_nat (length (savedItems tile)) < 65536 ->
  0 <= pos_x (position tile) < 65536 ->
  0 <= pos_y (position tile) < 65536 ->
  0 <= pos_z (position tile) < 256 ->
  world !! position tile = Some tile0 ->
  (length (saveTile [] tile) < fuel)%nat ->
  exists g',
    loadHouseRow fuel (saveTile [] tile) world g
    = Some (<[position tile :=
                mkTile (position tile0)
                       (Some (map decoded (savedItems tile) ++ default [] (itemList tile0)))]> world,
            g').
Proof.
  intros Hq Hre Hn Hx Hy Hz Htile Hfuel.
  rewrite (saveTile_some [] tile Hq) in Hfuel |- *. rewrite app_nil_l in Hfuel |- *.
  unfold tileBlob in *. unfold loadHouseRow.
  rewrite (read_u16_bytes _ _ Hx), (read_u16_bytes _ _ Hy), (read_u8_bytes _ _ Hz).
  replace (mkPosition (pos_x (position tile)) (pos_y (position tile)) (pos_z (position tile)))
    with (position tile) by (destruct (position tile); reflexivity).
  rewrite Htile.
  rewrite Z.mod_small in Hfuel |- * by lia.
  rewrite read_u32_bytes by lia. rewrite Nat2Z.id.
  rewrite <- (length_rev (savedItems tile)).
  rewrite <- (app_nil_r (concat (map (saveItem []) (rev (savedItems tile))))).
  destruct (loadTileItems_roundtrip fuel (rev (savedItems tile)) [] tile0 g) as (g' & E).
  { apply Forall_rev. exact Hre. }
  { rewrite !length_app in Hfuel. rewrite length_app. simpl in *. lia. }
  rewrite E. exists g'. do 3 f_equal.
  destruct (rev (savedItems tile)) as [|r rs] eqn:Hrev.
  { apply (f_equal (@length _)) in Hrev. rewrite length_rev in Hrev.
    destruct (savedItems tile); [contradiction | discriminate]. }
  rewrite <- Hrev, map_rev, rev_involutive. reflexivity.
Qed.

End LoadHouseItemsFacts.

Section SubmitFacts.
Context {R : Type} (accept : R -> bool).

Lemma submitAll_app (p1 p2 rows : list R) :
  submitAll accept (p1 ++ p2) rows =
    let '(ok, rows1) := submitAll accept p1 rows in
    if ok then submitAll accept p2 rows1 else (false, rows1).
Proof.
  revert rows. induction p1 as [|row p1 IH]; intros rows; simpl; [reflexivity|].
  destruct (accept row); [apply IH | reflexivity].
Qed.

Lemma submitAll_spec (pending : list R) :
  forall rows ok rows',
    submitAll accept pending rows = (ok, rows') ->
    exists taken,
      rows' = rows ++ taken /\ taken `prefix_of` pending
      /\ Forall (fun row => accept row = true) taken
      /\ (ok = true -> taken = pending)
      /\ (ok = false -> exists row, (taken ++ [row]) `prefix_of` pending
                                    /\ accept row = false).
Proof.
  induction pending as [|row pending IH]; intros rows ok rows'; simpl.
  - intros [= <- <-]. exists []. rewrite app_nil_r.
    repeat split; auto. discriminate.
  - destruct (accept row) eqn:Hrow.
    + intros E. apply IH in E as (taken & -> & Hpre & Hacc & Htrue & Hfalse).
      exists (row :: taken). rewrite <- app_assoc. simpl.
      split; [reflexivity|]. split; [apply prefix_cons; exact Hpre|].
      split; [constructor; assumption|]. split.
      * intros Hok. rewrite (Htrue Hok). reflexivity.
      * intros Hok. destruct (Hfalse Hok) as (bad & Hbad & Hrej).
        exists bad. split; [apply prefix_cons; exact Hbad | exact Hrej].
    + intros [= <- <-]. exists []. rewrite app_nil_r.
      split; [reflexivity|]. split; [apply prefix_nil|]. split; [constructor|].
      split; [discriminate|]. intros _. exists row.
      split; [apply prefix_cons, prefix_nil | exact Hrow].
Qed.

Lemma submitAll_accepted (pending : list R) :
  forall rows,
    Forall (fun row => accept row = true) pending ->
    submitAll accept pending rows = (true, rows ++ pending).
Proof.
  induction pending as [|row pending IH]; intros rows Hacc; simpl.
  - rewrite app_nil_r. reflexivity.
  - apply Forall_cons in Hacc as [-> Hacc]. rewrite IH by exact Hacc.
    rewrite <- app_assoc. reflexivity.
Qed.

End SubmitFacts.

Section SaveGuardFacts.
Context {Attrs : Type} `{Api : ItemApi Attrs}.

Lemma saveHouseTiles_submit (db : DbDriver) (houseId : Z) (tiles : list (Tile Attrs)) :
  forall rows ok stream' rows',
    saveHouseTiles db houseId tiles [] rows = (ok, stream', rows') ->
    submitAll (db_addRow_ok db) (flat_map (fun tile => match savedItems tile with
                                         | [] => []
                                         | _ :: _ => [(houseId, tileBlob tile)]
                                         end) tiles) rows = (ok, rows')
    /\ (ok = true -> stream' = []).
Proof.
  induction tiles as [|tile tiles IH]; intros rows ok stream' rows'; simpl.
  - intros [= <- <- <-]. auto.
  - destruct (savedItems tile) as [|q qs] eqn:Hq.
    + rewrite (saveTile_none [] tile Hq). simpl. apply IH.
    + rewrite (saveTile_some [] tile) by (rewrite Hq; discriminate).
      simpl. unfold tileBlob at 1. simpl.
      destruct (db_addRow_ok db _).
      * apply IH.
      * intros [= <- <- <-]. split; [reflexivity | discriminate].
Qed.

Lemma saveHouses_submit (db : DbDriver) (houses : list (House Attrs)) :
  forall rows ok stream' rows',
    saveHouses db houses [] rows = (ok, stream', rows') ->
    submitAll (db_addRow_ok db) (flat_map houseRows houses) rows = (ok, rows')
    /\ (ok = true -> stream' = []).
Proof.
  induction houses as [|house houses IH]; intros rows ok stream' rows'; simpl.
  - intros [= <- <- <-]. auto.
  - destruct (saveHouseTiles db (h_id house) (h_tiles house) [] rows)
      as [[ok1 s1] rows1] eqn:E1.
    apply saveHouseTiles_submit in E1 as [E1 Hs1].
    rewrite submitAll_app. unfold houseRows at 1. rewrite E1.
    destruct ok1.
    + rewrite (Hs1 eq_refl). apply IH.
    + intros [= <- <- <-]. split; [reflexivity | discriminate].
Qed.

(** X10: [SaveHouseItemsGuard] succeeds exactly when the driver accepts the
    [DELETE], every row of the tiles with saved items and the final
    [execute]; the rows it hands over are then those rows, all of them, in
    house and tile order.  When it fails, what it handed over is a prefix of
    those rows: it stops at the first refusal. *)
Theorem SaveHouseItemsGuard_outcome (db : DbDriver) (houses : list (House Attrs)) :
  (forall rows,
     SaveHouseItemsGuard db houses = (true, rows) <->
     db_delete_ok db = true
     /\ rows = flat_map houseRows houses
     /\ Forall (fun row => db_addRow_ok db row = true) rows
     /\ db_execute_ok db rows = true)
  /\ (forall rows,
        SaveHouseItemsGuard db houses = (false, rows) ->
        rows `prefix_of` flat_map houseRows houses
        /\ Forall (fun row => db_addRow_ok db row = true) rows).
Proof.
  unfold SaveHouseItemsGuard. split.
  - intros rows. split.
    + destruct (db_delete_ok db); simpl; [|discriminate].
      destruct (saveHouses db houses [] []) as [[ok s'] rows'] eqn:E.
      apply saveHouses_submit in E as [E _].
      destruct ok; simpl; [|discriminate].
      destruct (db_execute_ok db rows') eqn:Hexec; simpl; [|discriminate].
      intros [= <-].
      apply submitAll_spec in E as (taken & -> & _ & Hacc & Htrue & _).
      rewrite (Htrue eq_refl) in *. simpl. auto.
    + intros (Hdel & -> & Hacc & Hexec). rewrite Hdel. simpl.
      destruct (saveHouses db houses [] []) as [[ok s'] rows'] eqn:E.
      apply saveHouses_submit in E as [E _].
      rewrite (submitAll_accepted (db_addRow_ok db) _ [] Hacc) in E. injection E as <- <-.
      simpl. rewrite Hexec. reflexivity.
  - intros rows.
    destruct (db_delete_ok db); simpl.
    2: { intros [= <-]. split; [apply prefix_nil | constructor]. }
    destruct (saveHouses db houses [] []) as [[ok s'] rows'] eqn:E.
    apply saveHouses_submit in E as [E _].
    apply submitAll_spec in E as (taken & -> & Hpre & Hacc & _ & _).
    destruct ok; simpl.
    + destruct (db_execute_ok db taken); simpl; [discriminate|].
      intros [= <-]. auto.
    + intros [= <-]. auto.
Qed.

(** X11: [saveItem] and [saveTile] only append: the bytes already in the
    stream stay in front, untouched, and what is appended does not depend on
    them. *)
Theorem save_appends (stream : PropWriteStream) :
  (forall item : Item Attrs, saveItem stream item = stream ++ saveItem [] item)
  /\ (forall tile : Tile Attrs, saveTile stream tile = stream ++ saveTile [] tile).
Proof.
  split.
  - intros item. apply saveItem_app.
  - intros tile. destruct (savedItems tile) as [|q qs] eqn:Hq.
    + rewrite !saveTile_none by exact Hq. rewrite app_nil_r. reflexivity.
    + rewrite !saveTile_some by (rewrite Hq; discriminate). reflexivity.
Qed.

End SaveGuardFacts.

Section HouseInfoFacts.
Context {Attrs : Type}.

Lemma loadHouseInfoRow_lookup (isTransferOnRestart : bool) (row : HouseInfoRow)
    (houses : gmap Z (House Attrs)) (ev : list HouseEvent) houses' ev' (id : Z) :
  loadHouseInfoRow isTransferOnRestart row houses ev = (houses', ev') ->
  match houses !! id with
  | None => houses' !! id = None
  | Some house =>
      exists house', houses' !! id = Some house' /\ (r_id row <> id -> house' = house)
  end.
Proof.
  unfold loadHouseInfoRow.
  destruct (houses !! r_id row) as [found|] eqn:Hfound.
  - destruct (loadHouseOwner isTransferOnRestart row found) as [found' ev0].
    intros [= <- <-].
    destruct (decide (r_id row = id)) as [<-|Hne].
    + rewrite Hfound, lookup_insert_eq. eexists. split; [reflexivity | contradiction].
    + rewrite lookup_insert_ne by exact Hne.
      destruct (houses !! id) as [house|]; [|reflexivity]. exists house. auto.
  - intros [= <- <-]. destruct (houses !! id) as [house|]; [|reflexivity]. exists house. auto.
Qed.

Lemma loadHouseInfoRow_events (isTransferOnRestart : bool) (row : HouseInfoRow)
    (houses : gmap Z (House Attrs)) (ev : list HouseEvent) :
  (loadHouseInfoRow isTransferOnRestart row houses ev).2 =
    ev ++ rowEvents isTransferOnRestart (fun id => bool_decide (is_Some (houses !! id))) row.
Proof.
  unfold loadHouseInfoRow, loadHouseOwner, rowEvents.
  destruct (houses !! r_id row) as [found|]; [|simpl; rewrite app_nil_r; reflexivity].
  simpl.
  destruct (isTransferOnRestart && (0 <=? r_new_owner row));
    [destruct (r_new_owner row =? 0)|]; reflexivity.
Qed.

Lemma houseRows_fold (isTransferOnRestart : bool) (infoRows : list HouseInfoRow) :
  forall (houses : gmap Z (House Attrs)) (ev : list HouseEvent) houses' ev',
    fold_left (fun '(houses, ev) row => loadHouseInfoRow isTransferOnRestart row houses ev)
              infoRows (houses, ev) = (houses', ev') ->
    (forall id,
       match houses !! id with
       | None => houses' !! id = None
       | Some house =>
           exists house', houses' !! id = Some house'
                          /\ (Forall (fun row => r_id row <> id) infoRows -> house' = house)
       end)
    /\ ev' = ev ++ flat_map (rowEvents isTransferOnRestart
                               (fun id => bool_decide (is_Some (houses !! id)))) infoRows.
Proof.
  induction infoRows as [|row rows IH]; intros houses ev houses' ev'; simpl.
  - intros [= <- <-]. split; [|rewrite app_nil_r; reflexivity].
    intros id. destruct (houses !! id) as [house|]; [|reflexivity]. exists house. auto.
  - destruct (loadHouseInfoRow isTransferOnRestart row houses ev) as [houses1 ev1] eqn:Erow.
    intros E. apply IH in E as [Hlook Hev].
    assert (Hknown : forall id, bool_decide (is_Some (houses1 !! id))
                                = bool_decide (is_Some (houses !! id))).
    { intros id. pose proof (loadHouseInfoRow_lookup _ _ _ _ _ _ id Erow) as H.
      destruct (houses !! id) as [house|].
      - destruct H as (h1 & -> & _). reflexivity.
      - rewrite H. reflexivity. }
    split.
    + intros id. pose proof (loadHouseInfoRow_lookup _ _ _ _ _ _ id Erow) as H1.
      specialize (Hlook id).
      destruct (houses !! id) as [house|].
      * destruct H1 as (h1 & Hh1 & Hsame1). rewrite Hh1 in Hlook.
        destruct Hlook as (h2 & Hh2 & Hsame2).
        exists h2. split; [exact Hh2|].
        intros Hall. apply Forall_cons in Hall as [Hrow Hrows].
        rewrite (Hsame2 Hrows). apply Hsame1, Hrow.
      * rewrite H1 in Hlook. exact Hlook.
    + rewrite Hev. pose proof (loadHouseInfoRow_events isTransferOnRestart row houses ev) as Hev1.
      rewrite Erow in Hev1. simpl in Hev1. rewrite Hev1, <- app_assoc. f_equal. f_equal.
      apply flat_map_ext. intros r. unfold rowEvents. rewrite Hknown. reflexivity.
Qed.

Lemma loadHouseListRow_lookup (row : HouseListRow) (houses : gmap Z (House Attrs)) (id : Z) :
  match houses !! id with
  | None => loadHouseListRow row houses !! id = None
  | Some house =>
      exists house', loadHouseListRow row houses !! id = Some house'
                     /\ (l_house_id row <> id -> house' = house)
  end.
Proof.
  unfold loadHouseListRow. destruct (decide (l_house_id row = id)) as [->|Hne].
  - destruct (houses !! id) as [house|] eqn:Hh; [|exact Hh].
    rewrite lookup_insert_eq. eexists. split; [reflexivity | contradiction].
  - destruct (houses !! l_house_id row) as [other|].
    + rewrite lookup_insert_ne by exact Hne.
      destruct (houses !! id) as [house|]; [|reflexivity]. exists house. auto.
    + destruct (houses !! id) as [house|]; [|reflexivity]. exists house. auto.
Qed.

Lemma listRows_fold (listRows : list HouseListRow) :
  forall (houses : gmap Z (House Attrs)) (id : Z),
    match houses !! id with
    | None => fold_left (fun houses row => loadHouseListRow row houses) listRows houses !! id
              = None
    | Some house =>
        exists house',
          fold_left (fun houses row => loadHouseListRow row houses) listRows houses !! id
          = Some house'
          /\ (Forall (fun row => l_house_id row <> id) listRows -> house' = house)
    end.
Proof.
  induction listRows as [|row rows IH]; intros houses id; simpl.
  - destruct (houses !! id) as [house|]; [|reflexivity]. exists house. auto.
  - pose proof (loadHouseListRow_lookup row houses id) as H1.
    specialize (IH (loadHouseListRow row houses) id).
    destruct (houses !! id) as [house|].
    + destruct H1 as (h1 & Hh1 & Hsame1). rewrite Hh1 in IH.
      destruct IH as (h2 & Hh2 & Hsame2). exists h2. split; [exact Hh2|].
      intros Hall. apply Forall_cons in Hall as [Hrow Hrows].
      rewrite (Hsame2 Hrows). apply Hsame1, Hrow.
    + rewrite H1 in IH. exact IH.
Qed.

Lemma loadHouseInfo_calls (isTransferOnRestart : bool) (infoRows : list HouseInfoRow)
    (listRows : option (list HouseListRow)) (houses : gmap Z (House Attrs)) :
  (loadHouseInfo isTransferOnRestart (Some infoRows) listRows houses).2
  = flat_map (rowEvents isTransferOnRestart (fun id => bool_decide (is_Some (houses !! id))))
             infoRows.
Proof.
  unfold loadHouseInfo.
  destruct (fold_left _ infoRows (houses, [])) as [houses1 ev1] eqn:E1.
  apply houseRows_fold in E1 as [_ ->]. reflexivity.
Qed.

Lemma listRows_fold_fields (listRows : list HouseListRow) :
  forall (houses : gmap Z (House Attrs)) (id : Z) (house : House Attrs),
    houses !! id = Some house ->
    exists house',
      fold_left (fun houses row => loadHouseListRow row houses) listRows houses !! id
      = Some house'
      /\ h_owner house' = h_owner house
      /\ h_paidUntil house' = h_paidUntil house
      /\ h_payRentWarnings house' = h_payRentWarnings house.
Proof.
  induction listRows as [|row rows IH]; intros houses id house Hhouse; simpl.
  - exists house. auto.
  - assert (H1 : exists house1, loadHouseListRow row houses !! id = Some house1
                                /\ h_owner house1 = h_owner house
                                /\ h_paidUntil house1 = h_paidUntil house
                                /\ h_payRentWarnings house1 = h_payRentWarnings house).
    { unfold loadHouseListRow. destruct (decide (l_house_id row = id)) as [->|Hne].
      - rewrite Hhouse, lookup_insert_eq. eexists. split; [reflexivity|]. auto.
      - destruct (houses !! l_house_id row) as [other|].
        + rewrite lookup_insert_ne by exact Hne. exists house. auto.
        + exists house. auto. }
    destruct H1 as (house1 & Hh1 & Ho & Hp & Hw).
    destruct (IH _ id house1 Hh1) as (house' & Hh' & Ho' & Hp' & Hw').
    exists house'. split; [exact Hh'|]. split; [congruence|]. split; congruence.
Qed.

(** C8: on house-info load, for every stored house row whose house exists,
    wherever the row stands among the rows of the first query: with the
    transfer flag off or a negative [new_owner], [loadHouseInfo] sets the
    owner from the stored [owner] field and transfers nothing; with the flag
    on and [new_owner] zero it first transfers the house's items to the
    claim of the stored owner and then clears the owner to 0; with the flag
    on and [new_owner] positive it first transfers the items and then sets
    the owner to [new_owner].  These calls come after those of the earlier
    rows and before those of the later ones, and when no later row names the
    house it ends with that owner and the row's paid-until and warnings. *)
Theorem loadHouseInfo_owner_table (isTransferOnRestart : bool)
    (before : list HouseInfoRow) (row : HouseInfoRow) (after : list HouseInfoRow)
    (listRows : option (list HouseListRow))
    (houses : gmap Z (House Attrs)) (house : House Attrs) :
  houses !! r_id row = Some house ->
  exists houses' house' owner calls,
    loadHouseInfo isTransferOnRestart (Some (before ++ row :: after)) listRows houses
    = (true, houses',
       (loadHouseInfo isTransferOnRestart (Some before) None houses).2 ++ calls
         ++ (loadHouseInfo isTransferOnRestart (Some after) None houses).2)
    /\ houses' !! r_id row = Some house'
    /\ (Forall (fun later => r_id later <> r_id row) after ->
        h_owner house' = owner
        /\ h_paidUntil house' = r_paid row
        /\ h_payRentWarnings house' = r_warnings row)
    /\ (isTransferOnRestart = false \/ r_new_owner row < 0 ->
        owner = r_owner row
        /\ calls = [EvSetOwner (r_id row) (r_owner row) false])
    /\ (isTransferOnRestart = true /\ r_new_owner row = 0 ->
        owner = 0
        /\ calls = [EvTransferPlayerHouseItems (r_id row) (r_owner row);
                    EvSetOwner (r_id row) 0 true])
    /\ (isTransferOnRestart = true /\ 0 < r_new_owner row ->
        owner = r_new_owner row
        /\ calls = [EvTransferPlayerHouseItems (r_id row) (r_owner row);
                    EvSetOwner (r_id row) (r_new_owner row) true]).
Proof.
  intros Hhouse.
  set (owner := if isTransferOnRestart && (0 <=? r_new_owner row)
                then (if r_new_owner row =? 0 then 0 else r_new_owner row)
                else r_owner row).
  set (calls := if isTransferOnRestart && (0 <=? r_new_owner row)
                then [EvTransferPlayerHouseItems (r_id row) (r_owner row);
                      EvSetOwner (r_id row)
                        (if r_new_owner row =? 0 then 0 else r_new_owner row) true]
                else [EvSetOwner (r_id row) (r_owner row) false]).
  assert (Hrow : forall (hs : gmap Z (House Attrs)) h ev,
             hs !! r_id row = Some h ->
             loadHouseInfoRow isTransferOnRestart row hs ev
             = (<[r_id row := restored h owner row]> hs, ev ++ calls)).
  { intros hs h ev Hh. unfold loadHouseInfoRow, loadHouseOwner, restored, owner, calls.
    rewrite Hh.
    destruct (isTransferOnRestart && (0 <=? r_new_owner row));
      [destruct (r_new_owner row =? 0)|]; reflexivity. }
  assert (Htable :
            (isTransferOnRestart = false \/ r_new_owner row < 0 ->
             owner = r_owner row /\ calls = [EvSetOwner (r_id row) (r_owner row) false])
            /\ (isTransferOnRestart = true /\ r_new_owner row = 0 ->
                owner = 0
                /\ calls = [EvTransferPlayerHouseItems (r_id row) (r_owner row);
                            EvSetOwner (r_id row) 0 true])
            /\ (isTransferOnRestart = true /\ 0 < r_new_owner row ->
                owner = r_new_owner row
                /\ calls = [EvTransferPlayerHouseItems (r_id row) (r_owner row);
                            EvSetOwner (r_id row) (r_new_owner row) true])).
  { unfold owner, calls. split; [|split].
    - intros [-> | Hneg]; [split; reflexivity|].
      replace (0 <=? r_new_owner row) with false by (symmetry; apply Z.leb_gt; exact Hneg).
      rewrite andb_false_r. split; reflexivity.
    - intros [-> Hzero]. rewrite Hzero. split; reflexivity.
    - intros [-> Hpos].
      replace (0 <=? r_new_owner row) with true by (symmetry; apply Z.leb_le; lia).
      replace (r_new_owner row =? 0) with false by (symmetry; apply Z.eqb_neq; lia).
      split; reflexivity. }
  (* the house when the row's turn comes, and after the later rows *)
  destruct (fold_left (fun '(houses, ev) r => loadHouseInfoRow isTransferOnRestart r houses ev)
                      before (houses, [])) as [houses1 ev1] eqn:E1.
  pose proof (houseRows_fold _ _ _ _ _ _ E1) as [Hlook1 _].
  specialize (Hlook1 (r_id row)). rewrite Hhouse in Hlook1.
  destruct Hlook1 as (house1 & Hhouse1 & _).
  destruct (fold_left (fun '(houses, ev) r => loadHouseInfoRow isTransferOnRestart r houses ev)
                      after (<[r_id row := restored house1 owner row]> houses1, ev1 ++ calls))
    as [houses3 ev3] eqn:E3.
  pose proof (houseRows_fold _ _ _ _ _ _ E3) as [Hlook3 _].
  specialize (Hlook3 (r_id row)). rewrite lookup_insert_eq in Hlook3.
  destruct Hlook3 as (house3 & Hhouse3 & Hsame3).
  set (final := match listRows with
                | Some listRows =>
                    fold_left (fun houses r => loadHouseListRow r houses) listRows houses3
                | None => houses3
                end).
  assert (Hfinal : exists house',
             final !! r_id row = Some house'
             /\ h_owner house' = h_owner house3
             /\ h_paidUntil house' = h_paidUntil house3
             /\ h_payRentWarnings house' = h_payRentWarnings house3).
  { unfold final. destruct listRows as [l|].
    - apply listRows_fold_fields. exact Hhouse3.
    - exists house3. auto. }
  destruct Hfinal as (house' & Hhouse' & Ho & Hp & Hw).
  exists final, house', owner, calls.
  split; [|split; [exact Hhouse' | split; [|exact Htable]]].
  - rewrite (loadHouseInfo_calls isTransferOnRestart before None houses).
    rewrite (loadHouseInfo_calls isTransferOnRestart after None houses).
    pose proof (loadHouseInfo_calls isTransferOnRestart (before ++ row :: after)
                  listRows houses) as Hev.
    unfold loadHouseInfo in Hev |- *.
    rewrite fold_left_app in Hev |- *. rewrite E1 in Hev |- *.
    cbn [fold_left] in Hev |- *.
    rewrite (Hrow houses1 house1 ev1 Hhouse1) in Hev |- *.
    rewrite E3 in Hev |- *. cbn [snd] in Hev. fold final.
    rewrite Hev, flat_map_app. cbn [flat_map].
    unfold rowEvents at 2. rewrite Hhouse.
    rewrite (bool_decide_eq_true_2 _ (ltac:(eauto) : is_Some (Some house))).
    fold calls. reflexivity.
  - intros Hlater. rewrite Ho, Hp, Hw, (Hsame3 Hlater). auto.
Qed.

(** X12: [loadHouseInfo] works on the houses that exist and on nothing else:
    it never adds or drops a house, and a house that no row of either query
    names is left exactly as it was.  A null first query makes it return
    false with nothing changed and no call made; otherwise it returns
    true. *)
Theorem loadHouseInfo_keeps_houses (isTransferOnRestart : bool)
    (infoRows : option (list HouseInfoRow)) (listRows : option (list HouseListRow))
    (houses : gmap Z (House Attrs)) ok houses' ev :
  loadHouseInfo isTransferOnRestart infoRows listRows houses = (ok, houses', ev) ->
  (infoRows = None -> ok = false /\ houses' = houses /\ ev = [])
  /\ (infoRows <> None -> ok = true)
  /\ dom houses' = dom houses
  /\ (forall id house,
        houses !! id = Some house ->
        Forall (fun row => r_id row <> id) (default [] infoRows) ->
        Forall (fun row => l_house_id row <> id) (default [] listRows) ->
        houses' !! id = Some house).
Proof.
  intros E.
  assert (Hlook : forall id,
             match houses !! id with
             | None => houses' !! id = None
             | Some house =>
                 exists house', houses' !! id = Some house'
                   /\ (Forall (fun row => r_id row <> id) (default [] infoRows) ->
                       Forall (fun row => l_house_id row <> id) (default [] listRows) ->
                       house' = house)
             end).
  { unfold loadHouseInfo in E. destruct infoRows as [hrows|].
    2: { injection E as <- <- <-. intros id.
         destruct (houses !! id) as [house|]; [|reflexivity]. exists house. auto. }
    destruct (fold_left _ hrows (houses, [])) as [houses1 ev1] eqn:E1.
    injection E as <- <- <-.
    apply houseRows_fold in E1 as [Hlook _].
    intros id. specialize (Hlook id).
    destruct listRows as [lrows|]; simpl.
    - pose proof (listRows_fold lrows houses1 id) as H2.
      destruct (houses !! id) as [house|].
      + destruct Hlook as (h1 & Hh1 & Hsame1). rewrite Hh1 in H2.
        destruct H2 as (h2 & Hh2 & Hsame2). exists h2. split; [exact Hh2|].
        intros Hrows Hlists. rewrite (Hsame2 Hlists). apply Hsame1, Hrows.
      + rewrite Hlook in H2. exact H2.
    - destruct (houses !! id) as [house|]; [|exact Hlook].
      destruct Hlook as (h1 & Hh1 & Hsame1). exists h1. auto. }
  split; [|split; [|split]].
  - intros ->. simpl in E. injection E as <- <- <-. auto.
  - intros Hsome. unfold loadHouseInfo in E. destruct infoRows as [hrows|]; [|contradiction].
    destruct (fold_left _ hrows (houses, [])) as [houses1 ev1].
    injection E as <- _ _. reflexivity.
  - apply set_eq. intros id. rewrite !elem_of_dom. specialize (Hlook id).
    destruct (houses !! id) as [house|].
    + destruct Hlook as (h' & -> & _). split; eauto.
    + rewrite Hlook. reflexivity.
  - intros id house Hhouse Hrows Hlists. specialize (Hlook id). rewrite Hhouse in Hlook.
    destruct Hlook as (h' & -> & Hsame). rewrite (Hsame Hrows Hlists). reflexivity.
Qed.

(** X13: the calls [loadHouseInfo] makes are those of the rows of the first
    query whose house exists, in row order: two per row (the transfer of the
    items, then the owner) when the transfer flag is on and [new_owner] is
    not negative, one otherwise; rows for unknown houses make no call.  With
    the flag off no items are ever transferred: there is exactly one direct
    owner assignment per such row. *)
Theorem loadHouseInfo_events (isTransferOnRestart : bool) (infoRows : list HouseInfoRow)
    (listRows : option (list HouseListRow)) (houses : gmap Z (House Attrs)) :
  (loadHouseInfo isTransferOnRestart (Some infoRows) listRows houses).2
  = flat_map (rowEvents isTransferOnRestart (fun id => bool_decide (is_Some (houses !! id))))
             infoRows
  /\ (isTransferOnRestart = false ->
      (loadHouseInfo isTransferOnRestart (Some infoRows) listRows houses).2
      = map (fun row => EvSetOwner (r_id row) (r_owner row) false)
            (List.filter (fun row => bool_decide (is_Some (houses !! r_id row))) infoRows)).
Proof.
  assert (H : (loadHouseInfo isTransferOnRestart (Some infoRows) listRows houses).2
              = flat_map (rowEvents isTransferOnRestart
                            (fun id => bool_decide (is_Some (houses !! id)))) infoRows).
  { unfold loadHouseInfo.
    destruct (fold_left _ infoRows (houses, [])) as [houses1 ev1] eqn:E1.
    apply houseRows_fold in E1 as [_ ->]. reflexivity. }
  split; [exact H|]. intros ->. rewrite H. clear H.
  induction infoRows as [|row rows IH]; simpl; [reflexivity|].
  rewrite IH. unfold rowEvents at 1.
  destruct (bool_decide (is_Some (houses !! r_id row))); reflexivity.
Qed.

End HouseInfoFacts.

Section LoadHouseRowFrame.
Context {Attrs : Type} `{Api : ItemApi Attrs}.

(** X14: a row changes at most the tile at the position its first five bytes
    name: every other tile of the map is as before, and the named tile stays
    at its position, holds no fewer items than before and at most as many
    more as the count field announces. *)
Theorem loadHouseRow_touches_one_tile (fuel : nat) (attr : list Z)
    (world : gmap Position (Tile Attrs)) (g : Game) world' g'
    (x y z item_count : Z) (s1 s2 s3 s4 : PropStream) :
  read_u16 attr = Some (x, s1) ->
  read_u16 s1 = Some (y, s2) ->
  read_u8 s2 = Some (z, s3) ->
  read_u32 s3 = Some (item_count, s4) ->
  loadHouseRow fuel attr world g = Some (world', g') ->
  (forall pos, pos <> mkPosition x y z -> world' !! pos = world !! pos)
  /\ (world !! mkPosition x y z = None -> world' = world /\ g' = g)
  /\ (forall tile, world !! mkPosition x y z = Some tile ->
        exists tile', world' !! mkPosition x y z = Some tile'
          /\ grownFrom tile tile'
          /\ (length (cylinderItems (CylTile tile')) <=
              length (cylinderItems (CylTile tile)) + Z.to_nat item_count)%nat).
Proof.
  intros Hx Hy Hz Hn. unfold loadHouseRow. rewrite Hx, Hy, Hz.
  destruct (world !! mkPosition x y z) as [tile|] eqn:Htile.
  - rewrite Hn.
    destruct (loadTileItems fuel (Z.to_nat item_count) s4 tile g) as [[[s5 tile'] g1]|] eqn:E;
      [|discriminate].
    intros [= <- <-]. apply loadTileItems_grows in E as [Hgrow Hup].
    split; [|split].
    + intros pos Hne. apply lookup_insert_ne. congruence.
    + discriminate.
    + intros t [= <-]. exists tile'. rewrite lookup_insert_eq. auto.
  - intros [= <- <-]. split; [auto | split; [auto | discriminate]].
Qed.

End LoadHouseRowFrame.

Section SaveHouseInfoFacts.
Context {Attrs : Type} `{HApi : HouseApi Attrs}.

Lemma addListRow_submit (db : InfoDb) (houseId listId : Z) (access : option string)
    (rows : list ListRow) :
  addListRow db houseId listId access rows
  = submitAll (info_addRow db) (listRowOf houseId listId access) rows.
Proof.
  unfold addListRow, listRowOf. destruct access as [[|c text]|]; reflexivity.
Qed.

Lemma saveDoorLists_submit (db : InfoDb) (houseId : Z) (doors : list Door) :
  forall rows,
    saveDoorLists db houseId doors rows
    = submitAll (info_addRow db)
        (flat_map (fun door => listRowOf houseId (getDoorId door) (doorAccessList door)) doors)
        rows.
Proof.
  induction doors as [|door doors IH]; intros rows; simpl; [reflexivity|].
  rewrite submitAll_app, addListRow_submit.
  destruct (submitAll (info_addRow db) _ rows) as [ok rows1].
  destruct ok; [apply IH | reflexivity].
Qed.

Lemma saveHouseLists_submit (db : InfoDb) (house : House Attrs) (rows : list ListRow) :
  saveHouseLists db house rows = submitAll (info_addRow db) (houseListRows house) rows.
Proof.
  unfold saveHouseLists, houseListRows.
  rewrite submitAll_app, addListRow_submit.
  destruct (submitAll (info_addRow db) _ rows) as [ok rows1].
  destruct ok; simpl; [|reflexivity].
  rewrite submitAll_app, addListRow_submit.
  destruct (submitAll (info_addRow db) _ rows1) as [ok2 rows2].
  destruct ok2; simpl; [|reflexivity].
  apply saveDoorLists_submit.
Qed.

Lemma saveAllLists_submit (db : InfoDb) (houses : list (House Attrs)) :
  forall rows,
    saveAllLists db houses rows
    = submitAll (info_addRow db) (flat_map houseListRows houses) rows.
Proof.
  induction houses as [|house houses IH]; intros rows; simpl; [reflexivity|].
  rewrite submitAll_app, saveHouseLists_submit.
  destruct (submitAll (info_addRow db) _ rows) as [ok rows1].
  destruct ok; [apply IH | reflexivity].
Qed.

Lemma houseTrace_snoc (founds : list bool) (houses : list (House Attrs))
    (found : bool) (house : House Attrs) :
  length founds = length houses ->
  houseTrace (founds ++ [found]) (houses ++ [house])
  = houseTrace founds houses ++ [QSelectHouse (h_id house); houseWrite found house].
Proof.
  intros Hlen. unfold houseTrace.
  rewrite zip_with_app by exact Hlen. rewrite flat_map_app. reflexivity.
Qed.

(** The first loop, house by house: every [SELECT] is answered on the
    statements issued so far, and the write that follows it is chosen by that
    answer. *)
Lemma saveHouseRecords_issued (db : InfoDb) (houses : list (House Attrs)) :
  forall issued,
    exists founds,
      length founds = length houses
      /\ fold_left (saveHouseRecord db) houses issued = issued ++ houseTrace founds houses
      /\ (forall i house,
            houses !! i = Some house ->
            founds !! i
            = Some (info_storeQuery db
                      (issued ++ houseTrace (take i founds) (take i houses))
                      (QSelectHouse (h_id house)))).
Proof.
  induction houses as [|house houses IH] using rev_ind; intros issued.
  - exists []. simpl. rewrite app_nil_r. split; [reflexivity|]. split; [reflexivity|].
    intros i h Hh. rewrite lookup_nil in Hh. discriminate.
  - destruct (IH issued) as (founds & Hlen & E & Hfound).
    set (found := info_storeQuery db (issued ++ houseTrace founds houses)
                    (QSelectHouse (h_id house))).
    exists (founds ++ [found]).
    split; [rewrite !length_app; simpl; lia|]. split.
    + rewrite fold_left_app, E. simpl.
      rewrite (houseTrace_snoc founds houses found house Hlen).
      unfold saveHouseRecord, houseWrite. fold found.
      rewrite <- !app_assoc. simpl. destruct found; reflexivity.
    + intros i h Hh.
      destruct (decide (i < length houses)%nat) as [Hlt|Hge].
      * rewrite lookup_app_l in Hh by exact Hlt.
        rewrite lookup_app_l by lia.
        rewrite (take_app_le founds) by lia. rewrite (take_app_le houses) by lia.
        apply Hfound, Hh.
      * assert (Hi : i = length houses).
        { apply lookup_lt_Some in Hh. rewrite length_app in Hh. simpl in Hh. lia. }
        subst i. rewrite list_lookup_middle in Hh by reflexivity. injection Hh as <-.
        rewrite list_lookup_middle by (symmetry; exact Hlen).
        rewrite <- Hlen at 1. rewrite take_app_length.
        rewrite take_app_length. reflexivity.
Qed.

(** X15: [SaveHouseInfoGuard] succeeds exactly when the driver accepts the
    [DELETE], every access-list row and the final [execute]; whether a house's
    [UPDATE] or [INSERT] went through plays no part.  On success the rows are
    the non-empty guest, subowner and door lists of all houses, in order; on
    failure what was handed over is a prefix of them.  When the [DELETE]
    fails nothing else is issued; otherwise every house gets its [SELECT]
    followed by one write, also when an access-list row is refused later:
    an [UPDATE] when the driver answered that [SELECT], put after the
    statements issued before it, with a result, and an [INSERT] when it did
    not. *)
Theorem SaveHouseInfoGuard_outcome (db : InfoDb) (houses : list (House Attrs)) :
  (forall rows,
     (exists issued, SaveHouseInfoGuard db houses = (true, issued, rows)) <->
     info_executeQuery db [] QDeleteHouseLists = true
     /\ rows = flat_map houseListRows houses
     /\ Forall (fun row => info_addRow db row = true) rows
     /\ info_execute db rows = true)
  /\ (forall issued rows,
        SaveHouseInfoGuard db houses = (false, issued, rows) ->
        rows `prefix_of` flat_map houseListRows houses
        /\ Forall (fun row => info_addRow db row = true) rows
        /\ (info_executeQuery db [] QDeleteHouseLists = false ->
            issued = [QDeleteHouseLists] /\ rows = []))
  /\ (forall ok issued rows,
        SaveHouseInfoGuard db houses = (ok, issued, rows) ->
        info_executeQuery db [] QDeleteHouseLists = true ->
        exists founds,
          length founds = length houses
          /\ issued = QDeleteHouseLists :: houseTrace founds houses
          /\ (forall i house,
                houses !! i = Some house ->
                founds !! i
                = Some (info_storeQuery db
                          (QDeleteHouseLists :: houseTrace (take i founds) (take i houses))
                          (QSelectHouse (h_id house))))).
Proof.
  unfold SaveHouseInfoGuard. rewrite saveAllLists_submit. split; [|split].
  - intros rows. split.
    + intros [issued E]. revert E.
      destruct (info_executeQuery db [] QDeleteHouseLists); simpl; [|discriminate].
      destruct (submitAll (info_addRow db) (flat_map houseListRows houses) [])
        as [ok rows'] eqn:E.
      destruct ok; simpl; [|discriminate].
      destruct (info_execute db rows') eqn:Hexec; simpl; [|discriminate].
      intros [= <- <-].
      apply submitAll_spec in E as (taken & -> & _ & Hacc & Htrue & _).
      rewrite (Htrue eq_refl) in *. simpl. auto.
    + intros (Hdel & -> & Hacc & Hexec). rewrite Hdel. simpl.
      rewrite (submitAll_accepted (info_addRow db) _ [] Hacc). simpl.
      rewrite Hexec. eexists. reflexivity.
  - intros issued rows.
    destruct (info_executeQuery db [] QDeleteHouseLists); simpl.
    2: { intros [= <- <-]. split; [apply prefix_nil | split; [constructor | auto]]. }
    destruct (submitAll (info_addRow db) (flat_map houseListRows houses) [])
      as [ok rows'] eqn:E.
    apply submitAll_spec in E as (taken & -> & Hpre & Hacc & _ & _).
    destruct ok; simpl.
    + destruct (info_execute db taken); simpl; [discriminate|].
      intros [= <- <-]. split; [auto | split; [auto | discriminate]].
    + intros [= <- <-]. split; [auto | split; [auto | discriminate]].
  - intros ok issued rows E Hdel. rewrite Hdel in E. simpl in E.
    destruct (saveHouseRecords_issued db houses [QDeleteHouseLists])
      as (founds & Hlen & Eiss & Hfound).
    exists founds. split; [exact Hlen|]. rewrite Eiss in E. simpl in E.
    split; [|exact Hfound].
    destruct (submitAll (info_addRow db) (flat_map houseListRows houses) []) as [ok1 rows1].
    destruct ok1; simpl in E; [destruct (info_execute db rows1); simpl in E|];
      injection E as _ <- _; reflexivity.
Qed.

End SaveHouseInfoFacts.

(** X16: [getErrorDesc] gives every error code the switch names a text of its
    own, and none of them the fallback text: two codes with the same text are
    the same code, and "Bad error code" is the text of unlisted codes
    only. *)
Theorem getErrorDesc_injective (code1 code2 : ErrorCode_t) :
  (getErrorDesc code1 = getErrorDesc code2 -> code1 = code2)
  /\ (getErrorDesc code1 = "Bad error code"%string <-> code1 = LUA_ERROR_UNLISTED).
Proof.
  split.
  - destruct code1, code2; simpl; intros E; solve [reflexivity | discriminate E].
  - split; [destruct code1; simpl; intros E; solve [reflexivity | discriminate E]|].
    intros ->. reflexivity.
Qed.

(** ** The further theorems at concrete records *)

Module MoreExamples.
Import Demo DemoFacts Scenes.

Lemma loadContainer_keeps_children_witness :
  c_id pouchLoaded = c_id pouch /\ c_attrs pouchLoaded = c_attrs pouch
  /\ exists added,
       itemlist pouchLoaded = added ++ itemlist pouch
       /\ (0 <= serializationCount pouch < 4294967296 ->
           Z.of_nat (length added) <= serializationCount pouch
           /\ (true = true -> serializationCount pouchLoaded = 0)).
Proof.
  refine (loadContainer_keeps_children 5 [200; 0; 0; 201; 0; 0; 0] pouch []
            true [] pouchLoaded [EvStartDecaying 200; EvStartDecaying 201] _).
  vm_compute. reflexivity.
Defined.

Lemma loadItem_unknown_type_witness :
  loadItem 1 [15; 39; 4; 1; 0; 0] (CylTile emptyTile) true []
  = Some (true, [4; 1; 0; 0], CylTile emptyTile, []).
Proof.
  apply (loadItem_unknown_type 0 [15; 39; 4; 1; 0; 0] 9999 [4; 1; 0; 0]
           (CylTile emptyTile) true []);
    [reflexivity | reflexivity | reflexivity |].
  right. exists emptyTile. split; reflexivity.
Defined.

Lemma loadContainer_accepts_legacy_bed_witness :
  loadContainer 3 [218; 6; 0; 0] bedBox []
  = loadContainer 2 [0]
      (decrCount (asContainer (internalAddThing (CylContainer bedBox) (BedItem 1754 None 0))
                              bedBox))
      ([] ++ [EvStartDecaying 1754])
  /\ loadContainer 3 [218; 6; 0; 0] bedBox []
     = Some (true, [], mkContainer 100 None 0 [BedItem 1754 None 0], [EvStartDecaying 1754]).
Proof.
  split; [|vm_compute; reflexivity].
  apply (loadContainer_accepts_legacy_bed 1 [218; 6; 0; 0] 1754 [0; 0]
           bedBox [] (BedItem 1754 None 0) (BedItem 1754 None 0) [0]);
    (reflexivity || lia).
Defined.

Lemma loadItem_reconciles_in_place_witness :
  loadItem 1 [112; 23; 4; 1; 0; 0] (CylTile shelfTile) true []
  = Some (true, [],
          CylTile (mkTile (position shelfTile)
                     (Some (<[1%nat := transformItem (PlainItem 6000 (Some 1)) 6000]> shelf))),
          [] ++ [EvTransformItem (getID (PlainItem 6000 (Some 1) : Item Attrs)) 6000]).
Proof.
  apply (loadItem_reconciles_in_place 0 [112; 23; 4; 1; 0; 0] 6000 [4; 1; 0; 0]
           shelfTile shelf true [] 1%nat (PlainItem 6000 (Some 5)) (PlainItem 6000 (Some 1)) []);
    reflexivity.
Defined.

Lemma decoder_terminates_witness :
  exists ok s' parent' g',
    loadItem 4 [200; 0; 0] (CylTile emptyTile) true [] = Some (ok, s', parent', g').
Proof.
  destruct (proj1 (decoder_terminates [200; 0; 0] readAttrs_advance)
              (CylTile emptyTile) true [])
    as (ok & s' & parent' & g' & E & _).
  exists ok, s', parent', g'. apply E. simpl. lia.
Defined.

Lemma loadHouseItems_keeps_tiles_witness :
  dom loadedWorld = dom emptyWorld
  /\ forall pos tile,
       emptyWorld !! pos = Some tile ->
       exists tile', loadedWorld !! pos = Some tile' /\ grownFrom tile tile'.
Proof.
  refine (loadHouseItems_keeps_tiles 20 [legacyRow] emptyWorld []
            loadedWorld [EvStartDecaying 200] _).
  vm_compute. reflexivity.
Defined.

Lemma saveTile_loadHouseRow_roundtrip_witness :
  exists g',
    loadHouseRow 60 (saveTile [] satchelTile) stoneWorld []
    = Some (<[position satchelTile :=
                mkTile (position stoneTile)
                       (Some (map decoded (savedItems satchelTile)
                              ++ default [] (itemList stoneTile)))]> stoneWorld,
            g').
Proof.
  refine (saveTile_loadHouseRow_roundtrip 60 satchelTile stoneTile stoneWorld []
            _ _ _ _ _ _ _ _).
  - intros E. vm_compute in E. discriminate E.
  - constructor; [|constructor; [|constructor]].
    + split; [apply sack_storable | split; reflexivity].
    + split; [|split; reflexivity].
      apply storable_leaf; [reflexivity | simpl; lia |].
      apply plain_roundtrip; [reflexivity | lia].
  - simpl. lia.
  - simpl. lia.
  - simpl. lia.
  - simpl. lia.
  - apply lookup_singleton_eq.
  - vm_compute. lia.
Defined.

Lemma loadHouseRow_touches_one_tile_witness :
  exists tile',
    loadedWorld !! mkPosition 100 200 7 = Some tile'
    /\ grownFrom emptyTile tile'
    /\ (length (cylinderItems (CylTile tile'))
        <= length (cylinderItems (CylTile emptyTile)) + Z.to_nat 2)%nat.
Proof.
  refine (proj2 (proj2 (loadHouseRow_touches_one_tile 20 legacyRow emptyWorld []
                          loadedWorld [EvStartDecaying 200]
                          100 200 7 2 [200; 0; 7; 2; 0; 0; 0; 218; 6; 200; 0; 0]
                          [7; 2; 0; 0; 0; 218; 6; 200; 0; 0] [2; 0; 0; 0; 218; 6; 200; 0; 0]
                          [218; 6; 200; 0; 0] _ _ _ _ _)) emptyTile _);
    [reflexivity | reflexivity | reflexivity | reflexivity | vm_compute; reflexivity |].
  apply lookup_singleton_eq.
Defined.

Lemma loadHouseInfo_keeps_houses_witness :
  (loadHouseInfo false (Some [mkHouseInfoRow 5 78 0 1000 2]) (Some []) twoHouses).1.2 !! 6
  = Some house6.
Proof.
  refine (proj2 (proj2 (proj2
            (loadHouseInfo_keeps_houses false (Some [mkHouseInfoRow 5 78 0 1000 2]) (Some [])
               twoHouses
               (loadHouseInfo false (Some [mkHouseInfoRow 5 78 0 1000 2]) (Some []) twoHouses).1.1
               (loadHouseInfo false (Some [mkHouseInfoRow 5 78 0 1000 2]) (Some []) twoHouses).1.2
               (loadHouseInfo false (Some [mkHouseInfoRow 5 78 0 1000 2]) (Some []) twoHouses).2
               _))) 6 house6 _ _ _).
  - destruct (loadHouseInfo false (Some [mkHouseInfoRow 5 78 0 1000 2]) (Some []) twoHouses)
      as [[ok houses'] ev].
    reflexivity.
  - unfold twoHouses. rewrite lookup_insert_ne by discriminate. apply lookup_singleton_eq.
  - constructor; [discriminate | constructor].
  - constructor.
Defined.



(** The sack decoded onto the empty tile (the created item is put into the
    parent once its attributes and its two children decode), and a record
    of the stationary type 6000 on a tile without an item list. *)
Lemma loadItem_fresh_iff_witness :
  (exists ok s' parent' g',
     loadItem 31 (saveItem [] sack) (CylTile emptyTile) true [] = Some (ok, s', parent', g')
     /\ exists okCont container' g1,
          loadContainer 30 (drop 10 (saveItem [] sack)) (mkContainer 100 (Some 7) 2 []) []
          = Some (okCont, s', container', g1)
          /\ if okCont
             then ok = true
                  /\ parent' = internalAddThing (CylTile emptyTile) (ofContainer container')
                  /\ cylinderItems parent'
                     = ofContainer container' :: cylinderItems (CylTile emptyTile)
                  /\ g' = g1 ++ [EvStartDecaying 100]
             else ok = false /\ parent' = CylTile emptyTile /\ g' = g1)
  /\ (exists ok s' parent' g',
        loadItem 4 [112; 23; 0] (CylTile bareTile) false [] = Some (ok, s', parent', g')
        /\ exists tile,
             CylTile bareTile = CylTile tile
             /\ length (cylinderItems parent') = length (cylinderItems (CylTile bareTile))
             /\ match findItem tile (items 6000) 6000 with
                | Some (idx, _) =>
                    exists item', parent' = CylTile (setTileItem tile idx item')
                | None => parent' = CylTile bareTile
                end).
Proof.
  split.
  - refine (loadItem_fresh_iff 30 (saveItem [] sack) 100 (drop 2 (saveItem [] sack))
              (CylTile emptyTile) true [] readAttrs_advance _ _ _);
      [vm_compute; lia | reflexivity | reflexivity].
  - refine (loadItem_fresh_iff 3 [112; 23; 0] 6000 [0] (CylTile bareTile) false []
              readAttrs_advance _ _ _);
      [simpl; lia | reflexivity | reflexivity].
Defined.

(** A failing attribute byte on a freshly created item, and on a throwaway
    chest, whose nested load then fails on the exhausted stream. *)
Lemma loadItem_attr_failure_witness :
  loadItem 1 [200; 0; 99] (CylTile emptyTile) true []
  = Some (false, [], CylTile emptyTile, [])
  /\ exists okCont s3 container' g',
       loadContainer 3 [] (mkContainer 7000 None 0 []) [] = Some (okCont, s3, container', g')
       /\ loadItem 4 [88; 27; 99] (CylTile emptyTile) true []
          = Some (okCont, s3, CylTile emptyTile, g').
Proof.
  split.
  - apply (proj1 (loadItem_attr_failure 0 [200; 0; 99] 200 [99]
                    (PlainItem 200 None) (PlainItem 200 None) []
                    ltac:(reflexivity) ltac:(reflexivity) ltac:(reflexivity)));
      reflexivity.
  - apply (proj2 (proj2 (proj2
             (loadItem_attr_failure 3 [88; 27; 99] 7000 [99]
                (ContainerItem 7000 None 0 []) (ContainerItem 7000 None 0 []) []
                ltac:(reflexivity) ltac:(reflexivity) ltac:(reflexivity))))
             emptyTile true [] (mkContainer 7000 None 0 []));
      [exact readAttrs_advance | simpl; lia | reflexivity | reflexivity | reflexivity
      | reflexivity].
Defined.




(** Two stored houses loaded with the transfer flag on: house 5 is handed
    over (new_owner 0), house 6 keeps its stored owner (new_owner -1). *)
Lemma loadHouseInfo_owner_table_witness :
  exists houses' house' owner calls,
    loadHouseInfo true (Some ([] ++ row5 :: [row6])) (Some []) twoHouses
    = (true, houses',
       (loadHouseInfo true (Some []) None twoHouses).2 ++ calls
         ++ (loadHouseInfo true (Some [row6]) None twoHouses).2)
    /\ houses' !! r_id row5 = Some house'
    /\ (Forall (fun later => r_id later <> r_id row5) [row6] ->
        h_owner house' = owner
        /\ h_paidUntil house' = r_paid row5
        /\ h_payRentWarnings house' = r_warnings row5)
    /\ (true = false \/ r_new_owner row5 < 0 ->
        owner = r_owner row5
        /\ calls = [EvSetOwner (r_id row5) (r_owner row5) false])
    /\ (true = true /\ r_new_owner row5 = 0 ->
        owner = 0
        /\ calls = [EvTransferPlayerHouseItems (r_id row5) (r_owner row5);
                    EvSetOwner (r_id row5) 0 true])
    /\ (true = true /\ 0 < r_new_owner row5 ->
        owner = r_new_owner row5
        /\ calls = [EvTransferPlayerHouseItems (r_id row5) (r_owner row5);
                    EvSetOwner (r_id row5) (r_new_owner row5) true]).
Proof.
  refine (loadHouseInfo_owner_table true [] row5 [row6] (Some []) twoHouses house5 _).
  apply lookup_insert_eq.
Defined.

(** The calls of that load, in order. *)
Lemma loadHouseInfo_two_houses :
  (loadHouseInfo true (Some [row5; row6]) (Some []) twoHouses).2
  = [EvTransferPlayerHouseItems 5 77; EvSetOwner 5 0 true; EvSetOwner 6 12 false].
Proof. vm_compute. reflexivity. Qed.

Lemma decoder_effects_witness :
  exists starts last,
    [] ++ [EvTransformItem 6000 6000] = [] ++ starts ++ last
    /\ Forall (fun ev => startsDecaying ev = true) starts
    /\ (last = []
        \/ (exists itemId id s1 tile idx item,
              last = [EvTransformItem itemId id]
              /\ read_u16 [112; 23; 4; 1; 0; 0] = Some (id, s1)
              /\ CylTile shelfTile = CylTile tile
              /\ findItem tile (items id) id = Some (idx, item)
              /\ true = true)
        \/ (exists guid tile,
              guid <> 0 /\ last = [EvRemoveBedSleeper guid] /\ starts = []
              /\ CylTile shelfTile = CylTile tile
              /\ CylTile (mkTile origin (Some (<[1%nat := PlainItem 6000 (Some 1)]> shelf)))
                 = CylTile shelfTile
              /\ true = true)).
Proof.
  refine (proj1 (decoder_effects 1) [112; 23; 4; 1; 0; 0] (CylTile shelfTile) true []
            true [] (CylTile (mkTile origin (Some (<[1%nat := PlainItem 6000 (Some 1)]> shelf))))
            ([] ++ [EvTransformItem 6000 6000]) _).
  vm_compute. reflexivity.
Defined.

Lemma SaveHouseInfoGuard_outcome_witness :
  exists issued,
    SaveHouseInfoGuard infoDb [house5; house6]
    = (true, issued, [(5, 256, "Bob"%string); (5, 1, "Alice"%string)]).
Proof.
  apply (proj1 (SaveHouseInfoGuard_outcome infoDb [house5; house6])).
  split; [reflexivity|]. split; [reflexivity|]. split; [|reflexivity].
  repeat constructor.
Defined.

(** The statements of that pass: house 5 is known to the driver and is
    updated, house 6 is not and is inserted. *)
Lemma SaveHouseInfoGuard_two_houses :
  SaveHouseInfoGuard infoDb [house5; house6]
  = (true,
     [QDeleteHouseLists;
      QSelectHouse 5; QUpdateHouse 5 77 0 0 "Villa" 1 500 20 2;
      QSelectHouse 6; QInsertHouse 6 0 0 0 "Hut" 1 600 20 2],
     [(5, 256, "Bob"%string); (5, 1, "Alice"%string)]).
Proof. vm_compute. reflexivity. Qed.

End MoreExamples.
